(** * profilesearch: a shallow embedding of [search.go]

    The program fetches search-result pages, extracts candidate records
    with CSS selectors and regular expressions, optionally enriches every
    record from its profile page, and writes the records to a CSV file.

    Go strings are byte sequences; they are modelled by [string] (a list
    of 8-bit [ascii]).  Go's [int] is the 64-bit integer of the platform
    the workflow builds for, modelled by [Z] with the range written out
    where [strconv] checks it.  Network, clock and random source are
    oracles threaded through an explicit state. *)

From Stdlib Require Import ZArith List String Ascii Bool Arith Lia.
From Stdlib Require Import DecimalString DecimalZ DecimalPos DecimalN.
Import ListNotations.
Open Scope list_scope.
Open Scope string_scope.

(** ** Bytes and strings *)

Module Bytes.

Definition code (c : ascii) : nat := nat_of_ascii c.

Definition in_range (lo hi : nat) (c : ascii) : bool :=
  (lo <=? code c)%nat && (code c <=? hi)%nat.

Definition is_byte (n : nat) (c : ascii) : bool := (code c =? n)%nat.

Fixpoint of_codes (l : list nat) : string :=
  match l with
  | [] => EmptyString
  | n :: l' => String (ascii_of_nat n) (of_codes l')
  end.

(** The characters the models name by their code. *)
Definition dquote : ascii := ascii_of_nat 34.
Definition lf : ascii := ascii_of_nat 10.
Definition cr : ascii := ascii_of_nat 13.
Definition comma : ascii := ascii_of_nat 44.

Fixpoint strip_prefix (p s : string) : option string :=
  match p with
  | EmptyString => Some s
  | String a p' =>
      match s with
      | String b s' => if Ascii.eqb a b then strip_prefix p' s' else None
      | EmptyString => None
      end
  end.

Definition has_prefix (p s : string) : bool :=
  match strip_prefix p s with Some _ => true | None => false end.

(** [strings.Contains]. *)
Fixpoint contains (sub s : string) : bool :=
  has_prefix sub s ||
  match s with
  | EmptyString => false
  | String _ s' => contains sub s'
  end.

Fixpoint take (n : nat) (s : string) : string :=
  match n, s with
  | S n', String c s' => String c (take n' s')
  | _, _ => EmptyString
  end.

Fixpoint take_while (p : ascii -> bool) (s : string) : string :=
  match s with
  | String c s' => if p c then String c (take_while p s') else EmptyString
  | EmptyString => EmptyString
  end.

Fixpoint drop_while (p : ascii -> bool) (s : string) : string :=
  match s with
  | String c s' => if p c then drop_while p s' else s
  | EmptyString => EmptyString
  end.

Fixpoint forallb (p : ascii -> bool) (s : string) : bool :=
  match s with
  | String c s' => p c && forallb p s'
  | EmptyString => true
  end.

Fixpoint rev_onto (s acc : string) : string :=
  match s with
  | String c s' => rev_onto s' (String c acc)
  | EmptyString => acc
  end.

Definition rev (s : string) : string := rev_onto s EmptyString.

(** What [s] lost in front to become its suffix [rest]. *)
Definition consumed (s rest : string) : string :=
  take (length s - length rest) s.

End Bytes.

(** ** Regular expressions

    The four patterns of the program use literals, character classes,
    [+] over a class, [?], concatenation and one capturing group.  The
    matcher is a backtracking one: greedy operators try the longer
    alternative first, which gives the leftmost-first match that Go's
    [regexp] package returns.  All pattern characters are ASCII, so
    matching bytes and matching runes agree. *)

Module Regexp.
Import Bytes.

Inductive regex : Type :=
| Class (p : ascii -> bool)
| Lit (l : string)
| Cat (r1 r2 : regex)
| Opt (r : regex)
| Plus (p : ascii -> bool)
| Cap (r : regex).

Section Engine.
Context {R : Type}.

(** A continuation receives the rest of the input and the text of the
    capturing group so far. *)
Definition cont : Type := string -> option string -> option R.

Fixpoint many (p : ascii -> bool) (s : string) (cap : option string)
         (k : cont) : option R :=
  match s with
  | String c s' =>
      if p c then
        match many p s' cap k with
        | Some x => Some x
        | None => k s cap
        end
      else k s cap
  | EmptyString => k s cap
  end.

Fixpoint run (r : regex) (s : string) (cap : option string) (k : cont)
         {struct r} : option R :=
  match r with
  | Class p =>
      match s with
      | String c s' => if p c then k s' cap else None
      | EmptyString => None
      end
  | Lit l =>
      match strip_prefix l s with
      | Some s' => k s' cap
      | None => None
      end
  | Cat r1 r2 => run r1 s cap (fun s' cap' => run r2 s' cap' k)
  | Opt r' =>
      match run r' s cap k with
      | Some x => Some x
      | None => k s cap
      end
  | Plus p =>
      match s with
      | String c s' => if p c then many p s' cap k else None
      | EmptyString => None
      end
  | Cap r' => run r' s cap (fun s' _ => k s' (Some (consumed s s')))
  end.
End Engine.

(** A match anchored at the start of [s]: the matched text and the group. *)
Definition match_at (r : regex) (s : string) : option (string * option string) :=
  run r s None (fun s' cap => Some (consumed s s', cap)).

(** The leftmost match: every start position in turn, the end of the
    input included. *)
Fixpoint search (r : regex) (s : string) : option (string * option string) :=
  match match_at r s with
  | Some m => Some m
  | None =>
      match s with
      | String _ s' => search r s'
      | EmptyString => None
      end
  end.

(** [Regexp.FindString]: the leftmost match, or the empty string. *)
Definition FindString (r : regex) (s : string) : string :=
  match search r s with
  | Some (whole, _) => whole
  | None => EmptyString
  end.

(** [Regexp.FindStringSubmatch] for a pattern with one group: the nil
    slice when nothing matches, else the match and the group's text. *)
Definition FindStringSubmatch (r : regex) (s : string) : list string :=
  match search r s with
  | Some (whole, Some g) => [whole; g]
  | Some (whole, None) => [whole; EmptyString]
  | None => []
  end.

(** Character classes of the patterns. *)
Definition digit : ascii -> bool := in_range 48 57.
Definition lower : ascii -> bool := in_range 97 122.
Definition upper : ascii -> bool := in_range 65 90.
Definition alpha (c : ascii) : bool := lower c || upper c.
Definition one_of (l : string) (c : ascii) : bool :=
  contains (String c EmptyString) l.
(** Go's [\s] is tab, line feed, form feed, carriage return and space. *)
Definition space (c : ascii) : bool :=
  is_byte 9 c || is_byte 10 c || is_byte 12 c || is_byte 13 c || is_byte 32 c.

Fixpoint times (n : nat) (r : regex) : regex :=
  match n with
  | O => Lit EmptyString
  | S O => r
  | S n' => Cat r (times n' r)
  end.

End Regexp.

(** ** The parts of Go's library the program calls *)

Module unicode.
Import Bytes.

(** UTF-8 encodings of the runes [unicode.IsSpace] accepts: tab, line
    feed, vertical tab, form feed, carriage return, space, U+0085,
    U+00A0, U+1680, U+2000 to U+200A, U+2028, U+2029, U+202F, U+205F and
    U+3000. *)
Definition space_runes : list string :=
  map of_codes
    [ [9]; [10]; [11]; [12]; [13]; [32]; [194; 133]; [194; 160];
      [225; 154; 128];
      [226; 128; 128]; [226; 128; 129]; [226; 128; 130]; [226; 128; 131];
      [226; 128; 132]; [226; 128; 133]; [226; 128; 134]; [226; 128; 135];
      [226; 128; 136]; [226; 128; 137]; [226; 128; 138];
      [226; 128; 168]; [226; 128; 169]; [226; 128; 175];
      [226; 129; 159]; [227; 128; 128] ].

(** The input without its first rune when that rune is a space. *)
Fixpoint strip_first (encs : list string) (s : string) : option string :=
  match encs with
  | [] => None
  | e :: encs' =>
      match strip_prefix e s with
      | Some s' => Some s'
      | None => strip_first encs' s
      end
  end.

Definition starts_with_space (s : string) : bool :=
  match strip_first space_runes s with Some _ => true | None => false end.

End unicode.

Module strings.
Import Bytes.

Fixpoint trim_left (fuel : nat) (encs : list string) (s : string) : string :=
  match fuel with
  | O => s
  | S fuel' =>
      match unicode.strip_first encs s with
      | Some s' => trim_left fuel' encs s'
      | None => s
      end
  end.

(** [strings.TrimSpace]: leading and trailing space runes removed.  The
    trailing ones are the leading ones of the reversed bytes. *)
Definition TrimSpace (s : string) : string :=
  let s1 := trim_left (length s) unicode.space_runes s in
  rev (trim_left (length s1) (map rev unicode.space_runes) (rev s1)).

End strings.

Module strconv.
Import Bytes.

Inductive NumError : Type := ErrSyntax | ErrRange.

Definition maxUint64 : Z := 18446744073709551615.
Definition maxInt : Z := 9223372036854775807.
Definition minInt : Z := -9223372036854775808.

Definition digit_val (c : ascii) : Z := Z.of_nat (code c - 48).

(** The loop of [ParseUint] in base 10 with 64 bits. *)
Fixpoint ParseUint_loop (s : string) (n : Z) : Z * option NumError :=
  match s with
  | EmptyString => (n, None)
  | String c s' =>
      if Regexp.digit c then
        if (n >=? maxUint64 / 10 + 1)%Z then (maxUint64, Some ErrRange)
        else
          let n1 := (n * 10 + digit_val c)%Z in
          if (n1 >? maxUint64)%Z then (maxUint64, Some ErrRange)
          else ParseUint_loop s' n1
      else (0%Z, Some ErrSyntax)
  end.

Definition ParseUint (s : string) : Z * option NumError :=
  match s with
  | EmptyString => (0%Z, Some ErrSyntax)
  | _ => ParseUint_loop s 0
  end.

(** [ParseInt(s, 10, 0)]. *)
Definition ParseInt (s : string) : Z * option NumError :=
  match s with
  | EmptyString => (0%Z, Some ErrSyntax)
  | String c s' =>
      let neg := Ascii.eqb c "-" in
      let body := if Ascii.eqb c "+" || neg then s' else s in
      match ParseUint body with
      | (_, Some ErrSyntax) => (0%Z, Some ErrSyntax)
      | (un, _) =>
          if negb neg && (un >=? maxInt + 1)%Z then (maxInt, Some ErrRange)
          else if neg && (un >? maxInt + 1)%Z then (minInt, Some ErrRange)
          else ((if neg then - un else un)%Z, None)
      end
  end.

(** [strconv.Atoi]; its fast path for short inputs computes the same
    result as [ParseInt]. *)
Definition Atoi (s : string) : Z * option NumError := ParseInt s.

(** [strconv.Itoa]. *)
Definition Itoa (n : Z) : string := NilZero.string_of_int (Z.to_int n).

End strconv.

(** ** The program: constants and data *)

Import Bytes Regexp.

Definition maxPagesToScrape : nat := 2.
Definition retryAttempts : nat := 3.
(** [time.Duration] counts nanoseconds. *)
Definition Second : Z := 1000000000.
Definition retryDelay : Z := 5 * Second.
Definition outputFilename : string := "linkedin_candidates.csv".

(** [[a-zA-Z0-9._%+-]+@[a-zA-Z0-9.-]+\.[a-zA-Z]{2,}] *)
Definition emailRegex : regex :=
  Cat (Plus (fun c => alpha c || digit c || one_of "._%+-" c))
 (Cat (Lit "@")
 (Cat (Plus (fun c => alpha c || digit c || one_of ".-" c))
 (Cat (Lit ".")
 (Cat (Class alpha) (Plus alpha))))).

(** [\(?\d{3}\)?[-.\s]?\d{3}[-.\s]?\d{4}] *)
Definition phoneRegex : regex :=
  Cat (Opt (Lit "("))
 (Cat (times 3 (Class digit))
 (Cat (Opt (Lit ")"))
 (Cat (Opt (Class (fun c => one_of "-." c || space c)))
 (Cat (times 3 (Class digit))
 (Cat (Opt (Class (fun c => one_of "-." c || space c)))
      (times 4 (Class digit))))))).

(** [(\d+)\s+year[s]?] *)
Definition experienceRegex : regex :=
  Cat (Cap (Plus digit))
 (Cat (Plus space)
 (Cat (Lit "year") (Opt (Class (one_of "s"))))).

(** [(https:\/\/www\.linkedin\.com\/in\/[^&?]+)], compiled inside
    [scrapeGoogleSearchResults]. *)
Definition linkedinPrefix : string := "https://www.linkedin.com/in/".
Definition query_delim (c : ascii) : bool := one_of "&?" c.
Definition profileLinkRegex : regex :=
  Cap (Cat (Lit linkedinPrefix) (Plus (fun c => negb (query_delim c)))).

Record Candidate : Type := mkCandidate {
  Name : string;
  Email : string;
  Phone : string;
  ProfileURL : string;
  Experience : Z
}.

(** The value of [var candidate Candidate]. *)
Definition zeroCandidate : Candidate :=
  mkCandidate EmptyString EmptyString EmptyString EmptyString 0.

(** Assignments to one field. *)
Definition setName (c : Candidate) (v : string) : Candidate :=
  mkCandidate v (Email c) (Phone c) (ProfileURL c) (Experience c).
Definition setEmail (c : Candidate) (v : string) : Candidate :=
  mkCandidate (Name c) v (Phone c) (ProfileURL c) (Experience c).
Definition setPhone (c : Candidate) (v : string) : Candidate :=
  mkCandidate (Name c) (Email c) v (ProfileURL c) (Experience c).
Definition setProfileURL (c : Candidate) (v : string) : Candidate :=
  mkCandidate (Name c) (Email c) (Phone c) v (Experience c).

(** The errors the program builds with [fmt.Errorf] or receives. *)
Inductive error : Type :=
| ErrNewRequest (url : string)
| ErrTransport (msg : string)
| ErrReadClosedBody
| ErrCreateRequest (cause : error)
| ErrFetchProfile (cause : error)
| ErrBlocked
| ErrProfileStatus (status : Z)
| ErrParseProfileHTML (cause : error)
| ErrParsingYears (cause : strconv.NumError)
| ErrExperienceNotFound (text : string)
| ErrCreateCSV
| ErrWriteHeader
| ErrWriteRow.

(** ** Documents

    The markup parser and the selector engine are libraries.  A parsed
    document is what the program's selectors see of it: the elements
    matching [.tF2Cxc] in document order, each with the [href] of its
    descendant [a] elements and the text of the nodes its two other
    selectors match, the text under [.top-card-layout__title], and the
    rendered markup. *)

Record Container : Type := mkContainer {
  anchors : list (option string);
  nameNodes : list string;
  snippetNodes : list string
}.

Record Document : Type := mkDocument {
  results : list Container;
  topCardTitle : list string;
  rendered : string
}.

(** [Selection.Text]: the texts of the matched nodes, concatenated. *)
Definition Text (nodes : list string) : string := String.concat EmptyString nodes.

(** [s.Find("a[href*='linkedin.com/in/']")]: the anchors whose [href]
    contains the text, in document order. *)
Definition findProfileLinks (s : Container) : list string :=
  flat_map (fun a => match a with
                     | Some h => if contains "linkedin.com/in/" h then [h] else []
                     | None => []
                     end) (anchors s).

(** [Selection.Attr("href")]: the attribute of the first element. *)
Definition Attr_href (sel : list string) : option string := hd_error sel.

(** ** Extraction *)

Definition extractRegex (text : string) (re : regex) : string :=
  FindString re text.

Definition parseExperience (experienceStr : string) : Z * option error :=
  match FindStringSubmatch experienceRegex experienceStr with
  | _ :: m1 :: _ =>
      match strconv.Atoi m1 with
      | (_, Some err) => (0%Z, Some (ErrParsingYears err))
      | (years, None) => (years, None)
      end
  | _ => (0%Z, Some (ErrExperienceNotFound experienceStr))
  end.

(** The body of the closure given to [Each]: [None] is its early
    [return], [Some c] the candidate it appends. *)
Definition scrapeContainer (s : Container) : option Candidate :=
  match Attr_href (findProfileLinks s) with
  | None => None
  | Some profileLink =>
      match FindStringSubmatch profileLinkRegex profileLink with
      | _ :: m1 :: _ =>
          let name := strings.TrimSpace (Text (nameNodes s)) in
          let snippet := Text (snippetNodes s) in
          let email := extractRegex snippet emailRegex in
          let phone := extractRegex snippet phoneRegex in
          let experience := fst (parseExperience snippet) in
          Some {| Name := name; ProfileURL := m1; Email := email;
                  Phone := phone; Experience := experience |}
      | _ => None
      end
  end.

Definition scrapeGoogleSearchResults (doc : Document)
  : list Candidate * option error :=
  (fold_left (fun candidates s =>
                match scrapeContainer s with
                | Some candidate => (candidates ++ [candidate])%list
                | None => candidates
                end) (results doc) [],
   None).

(** ** The query URL *)

Module url.

Definition upperhex : string := "0123456789ABCDEF".

Definition hex_digit (n : nat) : ascii :=
  match String.get n upperhex with Some c => c | None => "0"%char end.

(** [shouldEscape] in query-component mode: letters, digits and [-_.~]
    stay. *)
Definition unreserved (c : ascii) : bool :=
  alpha c || digit c || one_of "-_.~" c.

Fixpoint QueryEscape (s : string) : string :=
  match s with
  | EmptyString => EmptyString
  | String c s' =>
      if unreserved c then String c (QueryEscape s')
      else if is_byte 32 c then String "+" (QueryEscape s')
      else String "%" (String (hex_digit (code c / 16))
                      (String (hex_digit (code c mod 16)) (QueryEscape s')))
  end.

End url.

Definition googleSearchURLBase : string := "https://www.google.com/search".

Definition buildGoogleSearchURL (keywords location industry experienceRange : string)
  : string :=
  let query := "site:linkedin.com/in " ++ keywords ++ " " ++ location ++ " "
               ++ industry ++ " " ++ experienceRange in
  googleSearchURLBase ++ "?" ++ (url.QueryEscape "q" ++ "=" ++ url.QueryEscape query).

(** ** The outside world

    What the network answers, what the random source draws and whether
    the file system cooperates are oracles; a failure of the network is
    the message of a transport error.  The state counts the draws
    and the requests made so far and records what the run did, in order. *)

Record Reply : Type := mkReply {
  status : Z;
  content : string;
  (** a failure of the connection while the body is read *)
  fault : option string
}.

Inductive DoResult : Type :=
| DoErr (msg : string)
| DoResp (r : Reply).

Record World : Type := mkWorld {
  rand_raw : nat -> nat;
  NewRequest_ok : string -> bool;
  client_Do : nat -> string -> DoResult;
  parse_html : string -> Document;
  Create_ok : string -> bool;
  Write_ok : nat -> bool
}.

(** A response held by the program: the reply and whether
    [resp.Body.Close()] has run. *)
Record Response : Type := mkResponse {
  reply : Reply;
  closed : bool
}.

Definition StatusCode (r : Response) : Z := status (reply r).
Definition Close (r : Response) : Response := mkResponse (reply r) true.

Inductive Message : Type :=
| MsgSearching (url : string)
| MsgScrapingPage (page : nat)
| MsgWaiting (delay : Z) (page : nat)
| MsgErrorCreatingRequest (e : error)
| MsgErrorFetchingRetry (e : error) (delay : Z)
| MsgStatusRetry (code : Z) (delay : Z)
| MsgFailedToFetch (page : nat) (e : error)
| MsgErrorParsingPage (page : nat) (e : error)
| MsgErrorScraping (page : nat) (e : error)
| MsgScrapingDetails (i : nat) (url : string)
| MsgErrorProfileDetails (url : string) (e : error)
| MsgCaptchaStopping
| MsgNoCandidates
| MsgErrorWritingCSV (e : error)
| MsgWroteCandidates (n : nat) (filename : string).

Inductive Event : Type :=
| Printed (m : Message)
| Logged (m : Message)
| Slept (d : Z)
| Requested (url userAgent referer : string).

Record State : Type := mkState {
  draws : nat;
  requests : nat;
  trace : list Event;
  (** name and bytes of the file written *)
  output : option (string * string)
}.

Definition initial : State := mkState 0 0 [] None.

(** A computation ends with a value or with a run-time panic. *)
Inductive Result (A : Type) : Type :=
| Done (a : A) (st : State)
| Panicked (st : State).
Arguments Done {A} a st.
Arguments Panicked {A} st.

Definition M (A : Type) : Type := State -> Result A.

Definition ret {A} (a : A) : M A := fun st => Done a st.

Definition bind {A B} (c : M A) (k : A -> M B) : M B :=
  fun st => match c st with
            | Done a st' => k a st'
            | Panicked st' => Panicked st'
            end.

Definition panic {A} : M A := fun st => Panicked st.

Notation "x <- c ;; k" := (bind c (fun x => k))
  (at level 61, c at next level, right associativity).
Notation "c ;; k" := (bind c (fun _ => k))
  (at level 61, right associativity).

Definition emit (e : Event) : M unit :=
  fun st => Done tt (mkState (draws st) (requests st) (trace st ++ [e])%list (output st)).

Definition state_of {A} (r : Result A) : State :=
  match r with Done _ st => st | Panicked st => st end.

Definition value_of {A} (r : Result A) : option A :=
  match r with Done a _ => Some a | Panicked _ => None end.

(** The delays slept and the messages logged, in order. *)
Definition sleeps (t : list Event) : list Z :=
  flat_map (fun e => match e with Slept d => [d] | _ => [] end) t.

Definition logged (t : list Event) : list Message :=
  flat_map (fun e => match e with Logged m => [m] | _ => [] end) t.

Definition requested (t : list Event) : list string :=
  flat_map (fun e => match e with Requested u _ _ => [u] | _ => [] end) t.

(** ** Fetching and enrichment *)

Section Program.
Variable w : World.

(** [rand.Intn(n)]. *)
Definition Intn (n : nat) : M nat :=
  fun st => Done (rand_raw w (draws st) mod n)
                 (mkState (S (draws st)) (requests st) (trace st) (output st)).

Definition Sleep (d : Z) : M unit := emit (Slept d).

Definition userAgents : list string :=
  [ "Mozilla/5.0 (Windows NT 10.0; Win64; x64) AppleWebKit/537.36 (KHTML, like Gecko) Chrome/91.0.4472.124 Safari/537.36";
    "Mozilla/5.0 (Macintosh; Intel Mac OS X 10_15_7) AppleWebKit/605.1.15 (KHTML, like Gecko) Version/15.0 Safari/605.1.15";
    "Mozilla/5.0 (Windows NT 10.0; Win64; x64; rv:89.0) Gecko/20100101 Firefox/89.0" ].

(** [getHeaders]: the [User-Agent] drawn. *)
Definition getHeaders : M string :=
  i <- Intn (List.length userAgents) ;;
  ret (nth i userAgents EmptyString).

(** [client.Do(req)].  [getProxyClient] has an empty proxy list, so the
    client is the default one with its timeout; a timeout is one of the
    transport errors the oracle may answer. *)
Definition Do (url userAgent referer : string) : M DoResult :=
  fun st => Done (client_Do w (requests st) url)
                 (mkState (draws st) (S (requests st))
                          (trace st ++ [Requested url userAgent referer])%list
                          (output st)).

(** [goquery.NewDocumentFromReader(resp.Body)]: reading a body that
    was closed fails, and so does a body whose connection breaks; the
    parser itself accepts any bytes. *)
Definition NewDocumentFromReader (r : Response) : Document + error :=
  if closed r then inr ErrReadClosedBody
  else match fault (reply r) with
       | Some msg => inr (ErrTransport msg)
       | None => inl (parse_html w (content (reply r)))
       end.

Definition referer : string := "https://www.google.com/".

Definition scrapeProfileDetails (profileURL : string)
  : M (Candidate * option error) :=
  let candidate := setProfileURL zeroCandidate profileURL in
  n <- Intn 10 ;;
  Sleep (Z.of_nat (n + 5) * Second) ;;
  if negb (NewRequest_ok w profileURL) then
    ret (candidate, Some (ErrCreateRequest (ErrNewRequest profileURL)))
  else
    userAgent <- getHeaders ;;
    r <- Do profileURL userAgent referer ;;
    match r with
    | DoErr msg => ret (candidate, Some (ErrFetchProfile (ErrTransport msg)))
    | DoResp rep =>
        let resp := mkResponse rep false in
        if negb (StatusCode resp =? 200)%Z then
          if (StatusCode resp =? 429)%Z || (StatusCode resp =? 302)%Z then
            emit (Logged MsgCaptchaStopping) ;;
            ret (candidate, Some ErrBlocked)
          else ret (candidate, Some (ErrProfileStatus (StatusCode resp)))
        else
          match NewDocumentFromReader resp with
          | inr e => ret (candidate, Some (ErrParseProfileHTML e))
          | inl doc =>
              let candidate :=
                setName candidate (strings.TrimSpace (Text (topCardTitle doc))) in
              let html := rendered doc in
              let candidate := setEmail candidate (extractRegex html emailRegex) in
              let candidate := setPhone candidate (extractRegex html phoneRegex) in
              ret (candidate, None)
          end
    end.

(** The retry loop of [main], with [left] attempts to go; [resp] and
    [err] are the variables declared before the loop. *)
Fixpoint fetchLoop (left : nat) (pageURL : string)
         (resp : option Response) (err : option error)
  : M (option Response * option error) :=
  match left with
  | O => ret (resp, err)
  | S left' =>
      if negb (NewRequest_ok w pageURL) then
        emit (Logged (MsgErrorCreatingRequest (ErrNewRequest pageURL))) ;;
        fetchLoop left' pageURL resp err
      else
        userAgent <- getHeaders ;;
        r <- Do pageURL userAgent referer ;;
        match r with
        | DoErr msg =>
            emit (Logged (MsgErrorFetchingRetry (ErrTransport msg) retryDelay)) ;;
            Sleep retryDelay ;;
            fetchLoop left' pageURL None (Some (ErrTransport msg))
        | DoResp rep =>
            let resp' := mkResponse rep false in
            if negb (StatusCode resp' =? 200)%Z then
              emit (Logged (MsgStatusRetry (StatusCode resp') retryDelay)) ;;
              Sleep retryDelay ;;
              fetchLoop left' pageURL (Some (Close resp')) None
            else ret (Some resp', None)
        end
  end.

(** The branch of the enrichment loop that updates [cand]. *)
Definition applyDetails (cand : Candidate) (res : Candidate * option error)
  : Candidate :=
  match res with
  | (_, Some _) => cand
  | (detailedCandidate, None) =>
      let cand := setName cand (Name detailedCandidate) in
      let cand := setEmail cand (Email detailedCandidate) in
      setPhone cand (Phone detailedCandidate)
  end.

(** [candidates[i] = cand]. *)
Fixpoint assign (i : nat) (cand : Candidate) (l : list Candidate) : list Candidate :=
  match l, i with
  | [], _ => []
  | _ :: l', O => cand :: l'
  | c :: l', S i' => c :: assign i' cand l'
  end.

(** [for i, cand := range candidates], from index [i] with [left]
    elements to go. *)
Fixpoint enrichLoop (left i : nat) (candidates : list Candidate)
  : M (list Candidate) :=
  match left with
  | O => ret candidates
  | S left' =>
      match nth_error candidates i with
      | None => ret candidates
      | Some cand =>
          emit (Printed (MsgScrapingDetails (i + 1) (ProfileURL cand))) ;;
          res <- scrapeProfileDetails (ProfileURL cand) ;;
          match snd res with
          | Some e => emit (Logged (MsgErrorProfileDetails (ProfileURL cand) e))
          | None => ret tt
          end ;;
          enrichLoop left' (S i) (assign i (applyDetails cand res) candidates)
      end
  end.

Definition pageURL_of (searchURL : string) (page : nat) : string :=
  if (0 <? page)%nat
  then searchURL ++ "&start=" ++ strconv.Itoa (Z.of_nat (page * 10))
  else searchURL.

(** One iteration of the page loop of [main]; every [continue] returns
    [allCandidates] as it was. *)
Definition scrapePage (searchURL : string) (page : nat)
           (allCandidates : list Candidate) : M (list Candidate) :=
  emit (Printed (MsgScrapingPage (page + 1))) ;;
  let pageURL := pageURL_of searchURL page in
  n <- Intn 10 ;;
  let delay := (Z.of_nat (n + 5) * Second)%Z in
  emit (Printed (MsgWaiting delay (page + 1))) ;;
  Sleep delay ;;
  fetched <- fetchLoop retryAttempts pageURL None None ;;
  match fetched with
  | (_, Some e) =>
      emit (Logged (MsgFailedToFetch (page + 1) e)) ;;
      ret allCandidates
  | (None, None) => panic
  | (Some resp, None) =>
      match NewDocumentFromReader resp with
      | inr e =>
          emit (Logged (MsgErrorParsingPage (page + 1) e)) ;;
          ret allCandidates
      | inl doc =>
          match scrapeGoogleSearchResults doc with
          | (_, Some e) =>
              emit (Logged (MsgErrorScraping (page + 1) e)) ;;
              ret allCandidates
          | (candidates, None) =>
              candidates' <- enrichLoop (List.length candidates) 0 candidates ;;
              ret (allCandidates ++ candidates')%list
          end
      end
  end.

Fixpoint pageLoop (left page : nat) (searchURL : string)
         (allCandidates : list Candidate) : M (list Candidate) :=
  match left with
  | O => ret allCandidates
  | S left' =>
      allCandidates' <- scrapePage searchURL page allCandidates ;;
      pageLoop left' (S page) searchURL allCandidates'
  end.

End Program.

(** ** Writing the CSV file *)

Module csv.

(** [Writer.fieldNeedsQuotes] with the comma as delimiter. *)
Definition special (c : ascii) : bool :=
  Ascii.eqb c lf || Ascii.eqb c cr || Ascii.eqb c dquote || Ascii.eqb c comma.

Definition fieldNeedsQuotes (field : string) : bool :=
  if String.eqb field EmptyString then false
  else if String.eqb field "\." then true
  else negb (Bytes.forallb (fun c => negb (special c)) field)
       || unicode.starts_with_space field.

(** The inside of a quoted field: every quote is doubled; carriage
    return and line feed stay as they are ([UseCRLF] is off). *)
Fixpoint quoted (field : string) : string :=
  match field with
  | EmptyString => EmptyString
  | String c field' =>
      if Ascii.eqb c dquote then String dquote (String dquote (quoted field'))
      else String c (quoted field')
  end.

Definition writeField (field : string) : string :=
  if fieldNeedsQuotes field
  then String dquote (quoted field ++ String dquote EmptyString)
  else field.

Fixpoint writeFields (n : nat) (record : list string) : string :=
  match record with
  | [] => EmptyString
  | field :: record' =>
      (if (0 <? n)%nat then String comma EmptyString else EmptyString)
      ++ writeField field ++ writeFields (S n) record'
  end.

(** [Writer.Write]: the bytes of one record. *)
Definition Write (record : list string) : string :=
  writeFields 0 record ++ String lf EmptyString.

End csv.

Definition header : list string :=
  ["Name"; "Email"; "Phone"; "Profile URL"; "Experience"].

Definition row (candidate : Candidate) : list string :=
  [Name candidate; Email candidate; Phone candidate; ProfileURL candidate;
   strconv.Itoa (Experience candidate)].

Section Output.
Variable w : World.

(** The [k]-th call of [writer.Write] on the file opened as [filename]:
    the bytes join the file unless the oracle fails the write. *)
Definition csvWrite (k : nat) (filename : string) (record : list string) : M bool :=
  fun st =>
    if Write_ok w k then
      let old := match output st with Some (_, bytes) => bytes | None => EmptyString end in
      Done true (mkState (draws st) (requests st) (trace st)
                         (Some (filename, old ++ csv.Write record)))
    else Done false st.

Fixpoint writeRows (k : nat) (filename : string) (candidates : list Candidate)
  : M (option error) :=
  match candidates with
  | [] => ret None
  | candidate :: candidates' =>
      ok <- csvWrite k filename (row candidate) ;;
      if ok then writeRows (S k) filename candidates'
      else ret (Some ErrWriteRow)
  end.

Definition writeToCSV (candidates : list Candidate) (filename : string)
  : M (option error) :=
  if negb (Create_ok w filename) then ret (Some ErrCreateCSV)
  else
    (fun st => Done tt (mkState (draws st) (requests st) (trace st)
                                (Some (filename, EmptyString)))) ;;
    ok <- csvWrite 0 filename header ;;
    if ok then writeRows 1 filename candidates
    else ret (Some ErrWriteHeader).

(** [main]; the value is the exit status of the process. *)
Definition main : M Z :=
  let keywords := "control valve desuperheater" in
  let location := "Bangalore" in
  let industry := "Machinery Manufacturing" in
  let experienceRange := "7-12 years" in
  let searchURL := buildGoogleSearchURL keywords location industry experienceRange in
  emit (Printed (MsgSearching searchURL)) ;;
  allCandidates <- pageLoop w maxPagesToScrape 0 searchURL [] ;;
  match allCandidates with
  | [] => emit (Logged MsgNoCandidates) ;; ret 0%Z
  | _ =>
      err <- writeToCSV allCandidates outputFilename ;;
      match err with
      | Some e => emit (Logged (MsgErrorWritingCSV e)) ;; ret 1%Z
      | None =>
          emit (Printed (MsgWroteCandidates (List.length allCandidates) outputFilename)) ;;
          ret 0%Z
      end
  end.

End Output.

(** ** Reading the CSV file back *)

Module csvread.

Inductive mode : Type :=
| FieldStart   (** before the first byte of a field *)
| Bare         (** inside a field written without quotes *)
| Quoted       (** inside a quoted field *)
| QuoteSeen.   (** after a quote met inside a quoted field *)

(** Modelled from the spec: the reader that re-parses the output file is
    not in the repository.  This one reads the standard delimited-text
    format the writer produces: records end with a line feed, fields are
    separated by commas, a field that starts with a quote runs to its
    closing quote, and a doubled quote inside it stands for one quote.
    [field] holds the bytes of the current field in reverse, [record]
    the finished fields of the current record in reverse, [records] the
    finished records in reverse. *)
Fixpoint read (m : mode) (field : string) (record : list string)
         (records : list (list string)) (input : string)
  : option (list (list string)) :=
  let end_field := (Bytes.rev field :: record)%list in
  let end_record := (List.rev end_field :: records)%list in
  match input with
  | EmptyString =>
      match m with
      | FieldStart =>
          match record with
          | [] => Some (List.rev records)
          | _ => None
          end
      | _ => None
      end
  | String c input' =>
      match m with
      | FieldStart =>
          if Ascii.eqb c dquote then read Quoted EmptyString record records input'
          else if Ascii.eqb c comma then read FieldStart EmptyString end_field records input'
          else if Ascii.eqb c lf then read FieldStart EmptyString [] end_record input'
          else read Bare (String c EmptyString) record records input'
      | Bare =>
          if Ascii.eqb c dquote then None
          else if Ascii.eqb c comma then read FieldStart EmptyString end_field records input'
          else if Ascii.eqb c lf then read FieldStart EmptyString [] end_record input'
          else read Bare (String c field) record records input'
      | Quoted =>
          if Ascii.eqb c dquote then read QuoteSeen field record records input'
          else read Quoted (String c field) record records input'
      | QuoteSeen =>
          if Ascii.eqb c dquote then read Quoted (String dquote field) record records input'
          else if Ascii.eqb c comma then read FieldStart EmptyString end_field records input'
          else if Ascii.eqb c lf then read FieldStart EmptyString [] end_record input'
          else None
      end
  end.

Definition ReadAll (input : string) : option (list (list string)) :=
  read FieldStart EmptyString [] [] input.

(** A data row back to a record. *)
Definition toCandidate (fields : list string) : option Candidate :=
  match fields with
  | [name; email; phone; profileURL; experience] =>
      match strconv.Atoi experience with
      | (n, None) => Some (mkCandidate name email phone profileURL n)
      | _ => None
      end
  | _ => None
  end.

End csvread.

(** * Vocabulary of the properties *)

Module Spec.
Import Bytes Regexp.

(** The leftmost position of [s] where [f] finds something. *)
Fixpoint leftmost {A} (f : string -> option A) (s : string) : option A :=
  match f s with
  | Some a => Some a
  | None =>
      match s with
      | String _ s' => leftmost f s'
      | EmptyString => None
      end
  end.

(** [P] holds of a suffix of [s] and of no longer suffix. *)
Definition Leftmost {A} (P : string -> A -> Prop) (s : string) (a : A) : Prop :=
  exists pre t,
    s = pre ++ t /\ P t a /\
    forall pre' t' a', s = pre' ++ t' -> P t' a' -> (length pre <= length pre')%nat.

Definition Nowhere {A} (P : string -> A -> Prop) (s : string) : Prop :=
  forall pre t a, s = pre ++ t -> ~ P t a.

Definition nondelim (c : ascii) : bool := negb (query_delim c).

(** [s] starts with the canonical link [u]: the prefix, then one or more
    bytes other than the query delimiters, as many as there are. *)
Definition CanonicalAt (s u : string) : Prop :=
  exists body post,
    u = linkedinPrefix ++ body /\ body <> EmptyString /\
    forallb nondelim body = true /\ s = u ++ post /\
    match post with String c _ => query_delim c = true | EmptyString => True end.

Definition canonical_at (s : string) : option string :=
  match strip_prefix linkedinPrefix s with
  | Some rest =>
      match take_while nondelim rest with
      | EmptyString => None
      | body => Some (linkedinPrefix ++ body)
      end
  | None => None
  end.

(** [s] starts with digits [ds], then blanks, then the word. *)
Definition YearsAt (s ds : string) : Prop :=
  exists ws post,
    s = ds ++ ws ++ "year" ++ post /\
    ds <> EmptyString /\ forallb digit ds = true /\
    ws <> EmptyString /\ forallb space ws = true.

Definition years_at (s : string) : option string :=
  let ds := take_while digit s in
  let after := drop_while digit s in
  match ds, take_while space after with
  | String _ _, String _ _ =>
      if has_prefix "year" (drop_while space after) then Some ds else None
  | _, _ => None
  end.

(** The number a string of digits denotes, continuing from [acc]. *)
Fixpoint decimal (s : string) (acc : Z) : Z :=
  match s with
  | EmptyString => acc
  | String c s' => decimal s' (acc * 10 + strconv.digit_val c)
  end.

Definition fits_int (n : Z) : Prop := (strconv.minInt <= n <= strconv.maxInt)%Z.

(** The canonical link the extractor finds in a container, if any. *)
Definition found_link (s : Container) : option string :=
  match Attr_href (findProfileLinks s) with
  | Some link => leftmost canonical_at link
  | None => None
  end.

(** A container is well formed when the link its selector finds holds a
    canonical profile link, and malformed when the selector finds no
    link. *)
Definition WellFormed (s : Container) : Prop :=
  exists link u, Attr_href (findProfileLinks s) = Some link /\
                 Leftmost CanonicalAt link u.

Definition MissingLink (s : Container) : Prop := findProfileLinks s = [].

Definition hasLink (s : Container) : bool :=
  match findProfileLinks s with [] => false | _ => true end.

(** The records one container contributes. *)
Definition emitted (s : Container) : list Candidate :=
  match scrapeContainer s with Some c => [c] | None => [] end.

(** The link as far as its first query delimiter. *)
Definition prefix_to_delim (link : string) : string := take_while nondelim link.

(** Every event a computation adds to the trace satisfies [P], and the
    value it ends with, if it ends with one, satisfies [Q]. *)
Definition Produces {A} (P : Event -> Prop) (Q : A -> Prop) (c : M A) : Prop :=
  forall st, exists new,
    trace (state_of (c st)) = (trace st ++ new)%list /\ Forall P new /\
    forall a st', c st = Done a st' -> Q a.

(** Errors that report a failure to read the years of experience, alone
    or as the cause of another error. *)
Fixpoint about_experience (e : error) : bool :=
  match e with
  | ErrParsingYears _ | ErrExperienceNotFound _ => true
  | ErrCreateRequest c | ErrFetchProfile c | ErrParseProfileHTML c => about_experience c
  | _ => false
  end.

Definition mentions_experience (m : Message) : bool :=
  match m with
  | MsgErrorCreatingRequest e | MsgErrorFetchingRetry e _ | MsgFailedToFetch _ e
  | MsgErrorParsingPage _ e | MsgErrorScraping _ e | MsgErrorProfileDetails _ e
  | MsgErrorWritingCSV e => about_experience e
  | _ => false
  end.

Definition silent_on_experience (ev : Event) : Prop :=
  match ev with
  | Logged m | Printed m => mentions_experience m = false
  | _ => True
  end.

Definition no_experience_error (e : option error) : Prop :=
  match e with Some e => about_experience e = false | None => True end.

(** The state after a request: one draw for the header, one request,
    and the events [evs]. *)
Definition advance (st : State) (evs : list Event) : State :=
  mkState (S (draws st)) (S (requests st)) (trace st ++ evs)%list (output st).

(** The header [getHeaders] draws in state [st]. *)
Definition drawnAgent (w : World) (st : State) : string :=
  nth (rand_raw w (draws st) mod 3) userAgents EmptyString.

(** The state after the pause that opens [scrapeProfileDetails]. *)
Definition paused (w : World) (st : State) : State :=
  mkState (S (draws st)) (requests st)
          (trace st ++ [Slept (Z.of_nat (rand_raw w (draws st) mod 10 + 5) * Second)])%list
          (output st).

(** The candidate [scrapeProfileDetails] returns with an error. *)
Definition bareCandidate (profileURL : string) : Candidate :=
  mkCandidate EmptyString EmptyString EmptyString profileURL 0.

(** How one record comes out of the enrichment loop: [applyDetails] of
    what [scrapeProfileDetails] answered for its link in some state. *)
Definition Enriched (w : World) (cand cand' : Candidate) : Prop :=
  exists st res st',
    scrapeProfileDetails w (ProfileURL cand) st = Done res st' /\
    cand' = applyDetails cand res.

(** The bytes of a sequence of records, one [Write] after the other. *)
Fixpoint lines (records : list (list string)) : string :=
  match records with
  | [] => EmptyString
  | r :: rs => csv.Write r ++ lines rs
  end.

(** The bytes a field may hold without quotes. *)
Definition plain (c : ascii) : bool := negb (csv.special c).

Definition headerLine : string :=
  "Name,Email,Phone,Profile URL,Experience" ++ String lf EmptyString.

(** Where the reader stands once a field and the delimiter [d] after it
    are read. *)
Definition after_field (d : ascii) (field : string) (record : list string)
           (records : list (list string)) (rest : string)
  : option (list (list string)) :=
  if Ascii.eqb d comma
  then csvread.read csvread.FieldStart EmptyString (field :: record) records rest
  else csvread.read csvread.FieldStart EmptyString []
         (List.rev (field :: record) :: records) rest.

End Spec.

(** * Fixtures: small worlds and documents to run the program on *)

Module Fixtures.

(** The network answers the requests with [l], in order, then fails. *)
Definition world (l : list DoResult) (doc : Document) : World :=
  mkWorld (fun _ => 0) (fun _ => true)
          (fun k _ => nth k l (DoErr "connection refused"))
          (fun _ => doc) (fun _ => true) (fun _ => true).

Definition answers (code : Z) : DoResult := DoResp (mkReply code EmptyString None).

Definition noDocument : Document := mkDocument [] [] EmptyString.

(** Every request of a run is answered 503. *)
Definition unavailable : World :=
  world (repeat (answers 503) (maxPagesToScrape * retryAttempts)) noDocument.

Definition pageURL : string := "https://www.google.com/search?q=x".

(** A result whose link goes through the search engine's redirect. *)
Definition redirected : Container :=
  mkContainer [Some "/url?q=https://www.linkedin.com/in/foo&sa=U"] [] [].

(** A result with a direct link and a snippet. *)
Definition direct (snippet : string) : Container :=
  mkContainer [Some "https://www.linkedin.com/in/jane?trk=1"] ["Jane"] [snippet].

(** A result without any profile link. *)
Definition linkless : Container :=
  mkContainer [None; Some "https://example.com/"] ["Nobody"] ["12 years"].

Definition jane (years : Z) : Candidate :=
  mkCandidate "Jane" EmptyString EmptyString "https://www.linkedin.com/in/jane" years.

(** A record whose name needs quotes in the file. *)
Definition roe : Candidate :=
  mkCandidate (String dquote "Roe, Jane") "jane@example.com" " 555 123 4567"
              "https://www.linkedin.com/in/roe" 12.

Definition page (snippet : string) : Document :=
  mkDocument [direct snippet] ["Jane Roe"] "<html>jane@example.com</html>".

End Fixtures.
(** * Facts about bytes and strings *)

Module BytesFacts.
Import Bytes.

Lemma app_assoc (a b c : string) : (a ++ b) ++ c = a ++ (b ++ c).
Proof. induction a as [|x a IH]; simpl; [reflexivity | now rewrite IH]. Qed.

Lemma app_nil_r (a : string) : a ++ EmptyString = a.
Proof. induction a as [|x a IH]; simpl; [reflexivity | now rewrite IH]. Qed.

Lemma length_app (a b : string) : length (a ++ b) = (length a + length b)%nat.
Proof. induction a as [|x a IH]; simpl; [reflexivity | now rewrite IH]. Qed.

Lemma take_app (a b : string) : take (length a) (a ++ b) = a.
Proof. induction a as [|x a IH]; simpl; [now destruct b | now rewrite IH]. Qed.

Lemma consumed_app (a b : string) : consumed (a ++ b) b = a.
Proof.
  unfold consumed. rewrite length_app.
  replace (length a + length b - length b)%nat with (length a) by lia.
  apply take_app.
Qed.

Lemma strip_prefix_app (p s : string) : strip_prefix p (p ++ s) = Some s.
Proof.
  induction p as [|x p IH]; simpl; [reflexivity|].
  now rewrite Ascii.eqb_refl.
Qed.

Lemma strip_prefix_inv (p s r : string) : strip_prefix p s = Some r -> s = p ++ r.
Proof.
  revert s; induction p as [|x p IH]; simpl; intros s H.
  - now inversion H.
  - destruct s as [|y s]; [discriminate|].
    destruct (Ascii.eqb x y) eqn:E; [|discriminate].
    apply Ascii.eqb_eq in E; subst y. now rewrite (IH _ H).
Qed.

Lemma has_prefix_app (p s : string) : has_prefix p (p ++ s) = true.
Proof. unfold has_prefix. now rewrite strip_prefix_app. Qed.

Lemma has_prefix_inv (p s : string) :
  has_prefix p s = true -> exists r, s = p ++ r.
Proof.
  unfold has_prefix. destruct (strip_prefix p s) as [r|] eqn:E; [|discriminate].
  intros _. exists r. now apply strip_prefix_inv.
Qed.

Lemma take_drop_while (p : ascii -> bool) (s : string) :
  take_while p s ++ drop_while p s = s.
Proof.
  induction s as [|c s IH]; simpl; [reflexivity|].
  destruct (p c); simpl; [now rewrite IH | reflexivity].
Qed.

Lemma forallb_take_while (p : ascii -> bool) (s : string) :
  forallb p (take_while p s) = true.
Proof.
  induction s as [|c s IH]; simpl; [reflexivity|].
  destruct (p c) eqn:E; simpl; [now rewrite E | reflexivity].
Qed.

Lemma forallb_app (p : ascii -> bool) (a b : string) :
  forallb p (a ++ b) = forallb p a && forallb p b.
Proof.
  induction a as [|c a IH]; simpl; [reflexivity|].
  now rewrite IH, andb_assoc.
Qed.

(** A run of [p] bytes followed by a byte outside [p], or by nothing, is
    what [take_while] takes. *)
Lemma take_while_app (p : ascii -> bool) (a b : string) :
  forallb p a = true ->
  match b with String c _ => p c = false | EmptyString => True end ->
  take_while p (a ++ b) = a /\ drop_while p (a ++ b) = b.
Proof.
  intros Ha Hb. induction a as [|c a IH]; simpl in *.
  - destruct b as [|c b]; simpl; [auto | now rewrite Hb].
  - apply andb_true_iff in Ha as [Hc Ha]. rewrite Hc.
    destruct (IH Ha) as [-> ->]. auto.
Qed.

Lemma drop_while_head (p : ascii -> bool) (s : string) :
  match drop_while p s with String c _ => p c = false | EmptyString => True end.
Proof.
  induction s as [|c s IH]; simpl; [exact I|].
  destruct (p c) eqn:E; [exact IH | exact E].
Qed.

Lemma consumed_drop_while (p : ascii -> bool) (a s : string) :
  consumed (a ++ s) (drop_while p s) = a ++ take_while p s.
Proof.
  rewrite <- (take_drop_while p s) at 1.
  rewrite <- app_assoc. apply consumed_app.
Qed.

Lemma rev_onto_app (s acc : string) : rev_onto s acc = rev s ++ acc.
Proof.
  unfold rev. revert acc.
  induction s as [|c s IH]; simpl; intro acc; [reflexivity|].
  rewrite IH, (IH (String c EmptyString)), app_assoc. reflexivity.
Qed.

Lemma rev_app (a b : string) : rev (a ++ b) = rev b ++ rev a.
Proof.
  induction a as [|c a IH]; simpl.
  - now rewrite app_nil_r.
  - unfold rev in *; simpl. rewrite !(rev_onto_app _ (String c EmptyString)).
    fold (rev (a ++ b)) (rev a). unfold rev. rewrite IH, app_assoc. reflexivity.
Qed.

Lemma rev_involutive (s : string) : rev (rev s) = s.
Proof.
  induction s as [|c s IH]; [reflexivity|].
  change (String c s) with (String c EmptyString ++ s) at 1.
  rewrite rev_app, rev_app, IH. reflexivity.
Qed.

End BytesFacts.

(** * Facts about the matcher *)

Module RegexpFacts.
Import Bytes Regexp BytesFacts Spec.

Section Many.
Context {R : Type}.
Implicit Types (k : @cont R) (p : ascii -> bool).

(** The longest run is tried first: when the continuation accepts
    after it, that is the result. *)
Lemma many_longest p s cap k x :
  k (drop_while p s) cap = Some x -> many p s cap k = Some x.
Proof.
  induction s as [|c s IH]; simpl; [trivial|].
  destruct (p c); [|trivial]. intro H. now rewrite (IH H).
Qed.

(** A continuation that refuses every input starting inside the run
    leaves only the longest run. *)
Lemma many_greedy p s cap k :
  (forall c t, p c = true -> k (String c t) cap = None) ->
  many p s cap k = k (drop_while p s) cap.
Proof.
  intro Hk. induction s as [|c s IH]; simpl; [reflexivity|].
  destruct (p c) eqn:E; [|reflexivity].
  rewrite IH. destruct (k (drop_while p s) cap); [reflexivity|].
  now apply Hk.
Qed.
End Many.

(** Every byte is one of 256: facts about the classes are checked on
    each. *)
Ltac each_byte c :=
  destruct c as [[] [] [] [] [] [] [] []]; vm_compute; intuition congruence.

Lemma digit_not_space c : digit c = true -> space c = false.
Proof. each_byte c. Qed.

Lemma space_not_y c t : space c = true -> strip_prefix "year" (String c t) = None.
Proof.
  intro H. cbn [strip_prefix]. destruct (Ascii.eqb "y" c) eqn:E; [|reflexivity].
  apply Ascii.eqb_eq in E; subst c. discriminate.
Qed.

Lemma digit_not_sign c : digit c = true -> Ascii.eqb c "+" || Ascii.eqb c "-" = false.
Proof. each_byte c. Qed.

Lemma delim_spec c : query_delim c = true <-> c = "&"%char \/ c = "?"%char.
Proof. each_byte c. Qed.

(** ** The profile link pattern *)

(** What the pattern matches at the start of [s]: the prefix and the
    longest run without a delimiter, which must not be empty. *)
Lemma match_at_profileLink s :
  match_at profileLinkRegex s =
  match canonical_at s with
  | Some u => Some (u, Some u)
  | None => None
  end.
Proof.
  unfold match_at, canonical_at, profileLinkRegex.
  cbn [run]. destruct (strip_prefix linkedinPrefix s) as [rest|] eqn:E; [|reflexivity].
  apply strip_prefix_inv in E. subst s.
  destruct rest as [|c rest]; [reflexivity|].
  cbn [take_while]. fold (nondelim c). destruct (nondelim c) eqn:Ec; [|reflexivity].
  erewrite many_longest; [reflexivity|].
  change (String c rest) with (String c EmptyString ++ rest).
  rewrite <- app_assoc, consumed_drop_while.
  rewrite app_assoc. reflexivity.
Qed.

Lemma search_profileLink s :
  search profileLinkRegex s =
  match leftmost canonical_at s with
  | Some u => Some (u, Some u)
  | None => None
  end.
Proof.
  induction s as [|c s IH].
  - reflexivity.
  - cbn [search leftmost]. rewrite match_at_profileLink.
    destruct (canonical_at (String c s)); [reflexivity | exact IH].
Qed.

Lemma FindStringSubmatch_profileLink s :
  FindStringSubmatch profileLinkRegex s =
  match leftmost canonical_at s with
  | Some u => [u; u]
  | None => []
  end.
Proof.
  unfold FindStringSubmatch. rewrite search_profileLink.
  now destruct (leftmost canonical_at s).
Qed.

(** ** The experience pattern *)

(** What the pattern captures at the start of [s]: the longest run of
    digits, when blanks and the word follow. *)
Lemma match_at_experience s :
  match years_at s with
  | Some ds => exists whole, match_at experienceRegex s = Some (whole, Some ds)
  | None => match_at experienceRegex s = None
  end.
Proof.
  unfold years_at, match_at, experienceRegex. cbn [run].
  destruct s as [|c s]; [reflexivity|].
  cbn [take_while drop_while]. destruct (digit c) eqn:Ec; [|reflexivity].
  rewrite many_greedy.
  2:{ intros c' t Hc'. cbn [run]. now rewrite (digit_not_space _ Hc'). }
  cbn [run].
  replace (consumed (String c s) (drop_while digit s))
    with (String c (take_while digit s))
    by (symmetry; apply (consumed_drop_while digit (String c EmptyString) s)).
  destruct (drop_while digit s) as [|b after]; [reflexivity|].
  cbn [take_while drop_while]. destruct (space b) eqn:Eb; [|reflexivity].
  rewrite many_greedy.
  2:{ intros c' t Hc'. cbn [run]. now rewrite (space_not_y _ _ Hc'). }
  cbn [run]. unfold has_prefix.
  destruct (strip_prefix "year" (drop_while space after)) as [r|]; [|reflexivity].
  destruct r as [|x r]; [eexists; reflexivity|].
  destruct (one_of "s" x); eexists; reflexivity.
Qed.

Lemma FindStringSubmatch_experience s :
  match leftmost years_at s with
  | Some ds => exists whole, FindStringSubmatch experienceRegex s = [whole; ds]
  | None => FindStringSubmatch experienceRegex s = []
  end.
Proof.
  unfold FindStringSubmatch.
  induction s as [|c s IH].
  - reflexivity.
  - cbn [search leftmost].
    pose proof (match_at_experience (String c s)) as H.
    destruct (years_at (String c s)) as [ds|].
    + destruct H as [whole ->]. now exists whole.
    + rewrite H. exact IH.
Qed.

End RegexpFacts.

(** * The patterns, declaratively *)

Module PatternFacts.
Import Bytes Regexp BytesFacts RegexpFacts Spec.

Section LeftmostFacts.
Context {A : Type} (f : string -> option A) (P : string -> A -> Prop).
Hypothesis f_spec : forall t a, f t = Some a <-> P t a.

Lemma leftmost_sound s a : leftmost f s = Some a -> Leftmost P s a.
Proof.
  induction s as [|c s IH]; cbn [leftmost].
  - destruct (f EmptyString) as [a0|] eqn:E; [|discriminate].
    intros [= <-]. exists EmptyString, EmptyString.
    repeat split; [now apply f_spec | intros; simpl; lia].
  - destruct (f (String c s)) as [a0|] eqn:E.
    + intros [= <-]. exists EmptyString, (String c s).
      repeat split; [now apply f_spec | intros; simpl; lia].
    + intro H. destruct (IH H) as (pre & t & -> & Ht & Hmin).
      exists (String c pre), t. repeat split; [exact Ht|].
      intros [|c' pre'] t' a' Heq Ht'; simpl in Heq.
      * subst t'. apply f_spec in Ht'. congruence.
      * injection Heq as _ Heq. simpl. apply le_n_S. eapply Hmin; eauto.
Qed.

Lemma leftmost_complete s a : Leftmost P s a -> leftmost f s = Some a.
Proof.
  induction s as [|c s IH]; intros (pre & t & Heq & Ht & Hmin); cbn [leftmost].
  - destruct pre; [|discriminate]. simpl in Heq; subst t.
    apply f_spec in Ht. now rewrite Ht.
  - destruct (f (String c s)) as [a0|] eqn:E.
    + apply f_spec in E.
      pose proof (Hmin EmptyString _ _ eq_refl E) as L.
      destruct pre; [|simpl in L; lia]. simpl in Heq; subst t.
      apply f_spec in Ht, E. congruence.
    + destruct pre as [|c' pre]; simpl in Heq.
      * subst t. apply f_spec in Ht. congruence.
      * injection Heq as <- ->. apply IH. exists pre, t.
        repeat split; [exact Ht|]. intros pre' t' a' Heq' Ht'.
        assert (L := Hmin (String c pre') t' a').
        simpl in L. rewrite Heq' in L. specialize (L eq_refl Ht'). lia.
Qed.

Lemma leftmost_none s : leftmost f s = None <-> Nowhere P s.
Proof.
  induction s as [|c s IH]; cbn [leftmost].
  - destruct (f EmptyString) as [a0|] eqn:E; split; try discriminate.
    + intro H. apply f_spec in E. now destruct (H EmptyString EmptyString a0).
    + intros _ [|x pre] t a Heq Ht; [|discriminate]. simpl in Heq; subst t.
      apply f_spec in Ht. congruence.
    + reflexivity.
  - destruct (f (String c s)) as [a0|] eqn:E; split; try discriminate.
    + intro H. apply f_spec in E. now destruct (H EmptyString (String c s) a0).
    + intros H [|c' pre] t a Heq Ht; simpl in Heq.
      * subst t. apply f_spec in Ht. congruence.
      * injection Heq as _ Heq. apply IH in H. exact (H pre t a Heq Ht).
    + intro H. apply IH. intros pre t a Heq Ht.
      apply (H (String c pre) t a); [simpl; now rewrite Heq | exact Ht].
Qed.
End LeftmostFacts.

Lemma nondelim_false c : nondelim c = false -> query_delim c = true.
Proof. unfold nondelim. now destruct (query_delim c). Qed.

Lemma canonical_at_spec s u : canonical_at s = Some u <-> CanonicalAt s u.
Proof.
  unfold canonical_at, CanonicalAt. generalize linkedinPrefix; intro P. split.
  - destruct (strip_prefix P s) as [rest|] eqn:E; [|discriminate].
    apply strip_prefix_inv in E.
    destruct (take_while nondelim rest) as [|c body] eqn:Eb; [discriminate|].
    intros [= <-]. exists (String c body), (drop_while nondelim rest).
    split; [reflexivity|]. split; [discriminate|]. split; [|split].
    + rewrite <- Eb. apply forallb_take_while.
    + rewrite app_assoc, <- Eb, take_drop_while. exact E.
    + pose proof (drop_while_head nondelim rest) as H.
      destruct (drop_while nondelim rest); [exact I | now apply nondelim_false].
  - intros (body & post & -> & Hne & Hall & -> & Hpost).
    rewrite app_assoc, strip_prefix_app.
    destruct (take_while_app nondelim body post Hall) as [-> _].
    + destruct post; [exact I|]. unfold nondelim. now rewrite Hpost.
    + destruct body; [congruence | reflexivity].
Qed.

Lemma space_not_digit c : space c = true -> digit c = false.
Proof.
  intro H. destruct (digit c) eqn:E; [|reflexivity].
  apply digit_not_space in E. congruence.
Qed.

Lemma years_at_spec s ds : years_at s = Some ds <-> YearsAt s ds.
Proof.
  unfold years_at, YearsAt. split.
  - destruct (take_while digit s) as [|d ds'] eqn:Ed; [discriminate|].
    destruct (take_while space (drop_while digit s)) as [|b ws'] eqn:Ew; [discriminate|].
    destruct (has_prefix "year" (drop_while space (drop_while digit s))) eqn:Ey;
      [|discriminate].
    intros [= <-]. apply has_prefix_inv in Ey as [post Ey].
    exists (String b ws'), post.
    split; [|split; [discriminate|split; [|split; [discriminate|]]]].
    + rewrite <- Ey, <- Ew, take_drop_while, <- Ed, take_drop_while. reflexivity.
    + rewrite <- Ed. apply forallb_take_while.
    + rewrite <- Ew. apply forallb_take_while.
  - intros (ws & post & -> & Hd & Hds & Hw & Hws).
    destruct ws as [|b ws]; [congruence|].
    assert (Hb : space b = true) by (simpl in Hws; now apply andb_true_iff in Hws).
    destruct (take_while_app digit ds (String b ws ++ "year" ++ post) Hds) as [-> ->].
    { simpl. now apply space_not_digit. }
    destruct (take_while_app space (String b ws) ("year" ++ post) Hws) as [-> ->].
    { reflexivity. }
    rewrite has_prefix_app. destruct ds; [congruence | reflexivity].
Qed.

(** The captured link starts with the prefix and holds no delimiter. *)
Lemma CanonicalAt_shape s u :
  CanonicalAt s u ->
  has_prefix linkedinPrefix u = true /\ forallb nondelim u = true.
Proof.
  intros (body & post & -> & _ & Hall & _ & _). split.
  - apply has_prefix_app.
  - rewrite forallb_app, Hall. reflexivity.
Qed.

(** A link that starts with the canonical pattern: the captured text is
    the link up to its first delimiter. *)
Lemma CanonicalAt_start_prefix s u :
  CanonicalAt s u -> u = take_while nondelim s.
Proof.
  intros (body & post & -> & _ & Hall & -> & Hpost).
  assert (H : forallb nondelim (linkedinPrefix ++ body) = true)
    by (rewrite forallb_app, Hall; reflexivity).
  destruct (take_while_app nondelim _ post H) as [-> _]; [|reflexivity].
  destruct post; [exact I|]. unfold nondelim. now rewrite Hpost.
Qed.

End PatternFacts.

(** * Facts about [strconv] *)

Module StrconvFacts.
Import Bytes Regexp BytesFacts RegexpFacts Spec strconv.

Lemma digit_val_range c : digit c = true -> (0 <= digit_val c <= 9)%Z.
Proof. unfold digit_val. each_byte c. Qed.

Lemma decimal_ge s : forall n,
  forallb digit s = true -> (0 <= n)%Z -> (n <= decimal s n)%Z.
Proof.
  induction s as [|c s IH]; simpl; intros n H Hn; [lia|].
  apply andb_true_iff in H as [Hc Hs]. pose proof (digit_val_range c Hc).
  specialize (IH (n * 10 + digit_val c)%Z Hs). lia.
Qed.

(** On digits the loop of [ParseUint] computes the number they denote,
    or reports that it does not fit 64 bits. *)
Lemma ParseUint_loop_digits s : forall n,
  forallb digit s = true -> (0 <= n <= maxUint64)%Z ->
  ParseUint_loop s n =
  if (decimal s n <=? maxUint64)%Z then (decimal s n, None)
  else (maxUint64, Some ErrRange).
Proof.
  induction s as [|c s IH]; intros n H Hn; cbn [ParseUint_loop decimal].
  - destruct (Z.leb_spec n maxUint64); [reflexivity | lia].
  - cbn [forallb] in H. apply andb_true_iff in H as [Hc Hs]. rewrite Hc.
    pose proof (digit_val_range c Hc) as Hd.
    pose proof (decimal_ge s (n * 10 + digit_val c) Hs) as Hge.
    assert (Hcut : (maxUint64 / 10 + 1 = 1844674407370955162)%Z) by reflexivity.
    rewrite Hcut.
    destruct (Z.geb_spec n 1844674407370955162) as [Hbig|Hsmall].
    + destruct (Z.leb_spec (decimal s (n * 10 + digit_val c)) maxUint64);
        [unfold maxUint64 in *; lia | reflexivity].
    + destruct (Z.gtb_spec (n * 10 + digit_val c) maxUint64) as [Hov|Hok].
      * destruct (Z.leb_spec (decimal s (n * 10 + digit_val c)) maxUint64);
          [lia | reflexivity].
      * apply IH; [exact Hs | lia].
Qed.

Lemma Atoi_digits c s :
  forallb digit (String c s) = true ->
  Atoi (String c s) =
  if (decimal (String c s) 0 <=? maxInt)%Z then (decimal (String c s) 0, None)
  else (maxInt, Some ErrRange).
Proof.
  intro H. unfold Atoi, ParseInt.
  assert (Hc : digit c = true) by (cbn [forallb] in H; now apply andb_true_iff in H).
  pose proof (digit_not_sign c Hc) as Hsign.
  apply orb_false_iff in Hsign as [Hplus Hminus].
  rewrite Hplus, Hminus. cbn [orb negb andb].
  unfold ParseUint. rewrite ParseUint_loop_digits by (auto; unfold maxUint64; lia).
  set (v := decimal (String c s) 0).
  destruct (Z.leb_spec v maxUint64) as [Hu|Hu].
  - destruct (Z.geb_spec v (maxInt + 1)), (Z.leb_spec v maxInt);
      try reflexivity; lia.
  - destruct (Z.leb_spec v maxInt); [unfold maxInt, maxUint64 in *; lia|].
    reflexivity.
Qed.

(** ** [Itoa] and back *)

Lemma digits_of_uint d : forallb digit (NilEmpty.string_of_uint d) = true.
Proof. induction d; simpl; auto. Qed.

Lemma decimal_of_uint_acc d : forall acc,
  decimal (NilEmpty.string_of_uint d) (Zpos acc) = Zpos (Pos.of_uint_acc d acc).
Proof.
  induction d; intro acc; cbn [NilEmpty.string_of_uint decimal Pos.of_uint_acc];
    [reflexivity|..];
    match goal with
    | |- decimal _ ?a = _ =>
        match goal with
        | |- _ = Zpos (Pos.of_uint_acc _ ?b) =>
            replace a with (Zpos b)
              by (match goal with
                  | |- context [digit_val ?c] =>
                      let v := eval vm_compute in (digit_val c) in
                      change (digit_val c) with v
                  end; lia)
        end
    end; auto.
Qed.

Lemma decimal_of_uint d :
  decimal (NilEmpty.string_of_uint d) 0 = Z.of_N (Pos.of_uint d).
Proof.
  induction d; cbn [NilEmpty.string_of_uint decimal Pos.of_uint];
    [reflexivity | exact IHd | ..];
    match goal with
    | |- decimal _ ?a = Z.of_N (Npos (Pos.of_uint_acc _ ?b)) =>
        change a with (Zpos b); cbn [Z.of_N]; apply decimal_of_uint_acc
    end.
Qed.

Lemma decimal_to_uint p :
  decimal (NilEmpty.string_of_uint (Pos.to_uint p)) 0 = Zpos p.
Proof. now rewrite decimal_of_uint, DecimalPos.Unsigned.of_to. Qed.

Lemma string_of_to_uint p :
  exists c s, NilEmpty.string_of_uint (Pos.to_uint p) = String c s.
Proof.
  pose proof (DecimalPos.Unsigned.to_uint_nonnil p) as H.
  destruct (Pos.to_uint p); [congruence|..]; simpl; eauto.
Qed.

Lemma NilZero_to_uint p :
  NilZero.string_of_uint (Pos.to_uint p) = NilEmpty.string_of_uint (Pos.to_uint p).
Proof.
  pose proof (DecimalPos.Unsigned.to_uint_nonnil p) as H.
  unfold NilZero.string_of_uint. destruct (Pos.to_uint p); [congruence|..]; reflexivity.
Qed.

(** The text [Itoa] writes for an [int] is read back by [Atoi] as the
    same [int]. *)
Lemma Atoi_Itoa n : fits_int n -> Atoi (Itoa n) = (n, None).
Proof.
  unfold fits_int, Itoa. intros Hn. destruct n as [|p|p]; cbn [Z.to_int].
  - reflexivity.
  - cbn [NilZero.string_of_int]. rewrite NilZero_to_uint.
    destruct (string_of_to_uint p) as (c & s & E).
    pose proof (digits_of_uint (Pos.to_uint p)) as Hd.
    pose proof (decimal_to_uint p) as Hv. rewrite E in *.
    rewrite Atoi_digits by exact Hd. rewrite Hv.
    destruct (Z.leb_spec (Zpos p) maxInt); [reflexivity | lia].
  - cbn [NilZero.string_of_int]. rewrite NilZero_to_uint.
    destruct (string_of_to_uint p) as (c & s & E).
    pose proof (digits_of_uint (Pos.to_uint p)) as Hd.
    pose proof (decimal_to_uint p) as Hv. rewrite E in *.
    unfold Atoi, ParseInt.
    change (Ascii.eqb "-" "-") with true. change (Ascii.eqb "-" "+") with false.
    cbn [orb negb andb]. unfold ParseUint.
    rewrite ParseUint_loop_digits by (auto; unfold maxUint64; lia). rewrite Hv.
    destruct (Z.leb_spec (Zpos p) maxUint64) as [Hu|Hu];
      [|unfold minInt, maxUint64 in *; lia].
    destruct (Z.gtb_spec (Zpos p) (maxInt + 1));
      [unfold minInt, maxInt in *; lia | reflexivity].
Qed.

End StrconvFacts.

(** * Facts about extraction *)

Module ExtractFacts.
Import Bytes Regexp BytesFacts RegexpFacts PatternFacts StrconvFacts Spec.

Lemma parseExperience_spec s :
  parseExperience s =
  match leftmost years_at s with
  | Some ds =>
      if (decimal ds 0 <=? strconv.maxInt)%Z then (decimal ds 0, None)
      else (0%Z, Some (ErrParsingYears strconv.ErrRange))
  | None => (0%Z, Some (ErrExperienceNotFound s))
  end.
Proof.
  unfold parseExperience.
  pose proof (FindStringSubmatch_experience s) as H.
  destruct (leftmost years_at s) as [ds|] eqn:E.
  - destruct H as [whole ->].
    apply (leftmost_sound _ _ years_at_spec) in E.
    destruct E as (_ & t & _ & (ws & post & _ & Hne & Hds & _) & _).
    destruct ds as [|c ds]; [congruence|].
    rewrite Atoi_digits by exact Hds.
    now destruct (decimal (String c ds) 0 <=? strconv.maxInt)%Z.
  - now rewrite H.
Qed.

Lemma parseExperience_range s :
  (0 <= fst (parseExperience s) <= strconv.maxInt)%Z.
Proof.
  rewrite parseExperience_spec.
  destruct (leftmost years_at s) as [ds|] eqn:E; [|simpl; unfold strconv.maxInt; lia].
  apply (leftmost_sound _ _ years_at_spec) in E.
  destruct E as (_ & t & _ & (ws & post & _ & _ & Hds & _) & _).
  pose proof (decimal_ge ds 0 Hds).
  destruct (Z.leb_spec (decimal ds 0) strconv.maxInt); simpl;
    unfold strconv.maxInt in *; lia.
Qed.

(** The closure of [scrapeGoogleSearchResults], through the link it
    finds. *)
Lemma scrapeContainer_spec s :
  scrapeContainer s =
  match found_link s with
  | Some u =>
      Some {| Name := strings.TrimSpace (Text (nameNodes s));
              Email := extractRegex (Text (snippetNodes s)) emailRegex;
              Phone := extractRegex (Text (snippetNodes s)) phoneRegex;
              ProfileURL := u;
              Experience := fst (parseExperience (Text (snippetNodes s))) |}
  | None => None
  end.
Proof.
  unfold scrapeContainer, found_link.
  destruct (Attr_href (findProfileLinks s)) as [link|]; [|reflexivity].
  rewrite FindStringSubmatch_profileLink.
  now destruct (leftmost canonical_at link).
Qed.

Lemma fold_emitted l : forall acc,
  fold_left (fun candidates s =>
               match scrapeContainer s with
               | Some candidate => (candidates ++ [candidate])%list
               | None => candidates
               end) l acc
  = (acc ++ flat_map emitted l)%list.
Proof.
  induction l as [|s l IH]; intro acc; simpl.
  - now rewrite List.app_nil_r.
  - rewrite IH. unfold emitted at 2.
    destruct (scrapeContainer s); [now rewrite <- List.app_assoc | reflexivity].
Qed.

(** The loop appends in document order: its result is the records of
    the containers, one after the other. *)
Lemma scrape_flat_map doc :
  scrapeGoogleSearchResults doc = (flat_map emitted (results doc), None).
Proof. unfold scrapeGoogleSearchResults. now rewrite fold_emitted. Qed.

Lemma In_scrape doc cand :
  In cand (fst (scrapeGoogleSearchResults doc)) ->
  exists s, In s (results doc) /\ scrapeContainer s = Some cand.
Proof.
  rewrite scrape_flat_map. cbn [fst]. rewrite in_flat_map.
  intros (s & Hs & Hc). exists s. split; [exact Hs|].
  unfold emitted in Hc. destruct (scrapeContainer s); simpl in Hc; [|tauto].
  destruct Hc as [->|[]]. reflexivity.
Qed.

Lemma found_link_WellFormed s u :
  found_link s = Some u <->
  exists link, Attr_href (findProfileLinks s) = Some link /\ Leftmost CanonicalAt link u.
Proof.
  unfold found_link. split.
  - destruct (Attr_href (findProfileLinks s)) as [link|]; [|discriminate].
    intro H. exists link. split; [reflexivity|].
    now apply (leftmost_sound _ _ canonical_at_spec).
  - intros (link & -> & H). now apply (leftmost_complete _ _ canonical_at_spec).
Qed.

Lemma WellFormed_emits s :
  WellFormed s <-> exists cand, scrapeContainer s = Some cand.
Proof.
  rewrite scrapeContainer_spec. split.
  - intros (link & u & Hl & Hu).
    assert (H : found_link s = Some u) by (apply found_link_WellFormed; eauto).
    rewrite H. eauto.
  - intros [cand H]. destruct (found_link s) as [u|] eqn:E; [|discriminate].
    apply found_link_WellFormed in E as (link & Hl & Hu). now exists link, u.
Qed.

Lemma MissingLink_skipped s : MissingLink s -> scrapeContainer s = None.
Proof. unfold MissingLink, scrapeContainer. now intros ->. Qed.

Lemma nondelim_chars c :
  nondelim c = negb (Ascii.eqb c "&") && negb (Ascii.eqb c "?").
Proof. unfold nondelim. each_byte c. Qed.

Lemma forallb_ext (p q : ascii -> bool) s :
  (forall c, p c = q c) -> forallb p s = forallb q s.
Proof. intro H. induction s as [|c s IH]; simpl; [reflexivity | now rewrite H, IH]. Qed.

End ExtractFacts.

(** * Facts about the effects *)

Module RunFacts.
Import Bytes Regexp BytesFacts Spec ExtractFacts.

Section Logic.
Context {A B : Type}.
Variable P : Event -> Prop.

Lemma produces_ret (Q : A -> Prop) a : Q a -> Produces P Q (ret a).
Proof.
  intros H st. exists []. cbn. rewrite List.app_nil_r.
  repeat split; [constructor|]. now intros a' st' [= <- _].
Qed.

Lemma produces_panic (Q : A -> Prop) : Produces P Q panic.
Proof.
  intros st. exists []. cbn. rewrite List.app_nil_r.
  repeat split; [constructor | discriminate].
Qed.

Lemma produces_bind (Q : A -> Prop) (Q' : B -> Prop) c k :
  Produces P Q c -> (forall a, Q a -> Produces P Q' (k a)) ->
  Produces P Q' (bind c k).
Proof.
  intros Hc Hk st. destruct (Hc st) as (n1 & E1 & F1 & V1). unfold bind.
  destruct (c st) as [a st1|st1]; cbn [state_of] in E1.
  - destruct (Hk a (V1 a st1 eq_refl) st1) as (n2 & E2 & F2 & V2).
    exists (n1 ++ n2)%list. rewrite E2, E1, List.app_assoc.
    repeat split; [now apply Forall_app | exact V2].
  - exists n1. repeat split; [exact E1 | exact F1 | discriminate].
Qed.

Lemma produces_weaken (Q Q' : A -> Prop) c :
  Produces P Q c -> (forall a, Q a -> Q' a) -> Produces P Q' c.
Proof.
  intros Hc HQ st. destruct (Hc st) as (n & E & F & V).
  exists n. repeat split; eauto.
Qed.
End Logic.

Lemma produces_emit P (Q : unit -> Prop) e : P e -> Q tt -> Produces P Q (emit e).
Proof.
  intros He HQ st. exists [e]. cbn. repeat split; [auto|]. now intros [] st' _.
Qed.

Lemma produces_Intn P w n : Produces P (fun _ => True) (Intn w n).
Proof.
  intros st. exists []. cbn. rewrite List.app_nil_r. repeat split; constructor.
Qed.

Lemma produces_getHeaders P w : Produces P (fun _ => True) (getHeaders w).
Proof.
  unfold getHeaders. eapply produces_bind; [apply produces_Intn|].
  intros i _. now apply produces_ret.
Qed.

Lemma produces_Do P w url ua ref :
  P (Requested url ua ref) -> Produces P (fun _ => True) (Do w url ua ref).
Proof. intros H st. exists [Requested url ua ref]. cbn. repeat split; auto. Qed.

(** ** One attempt of the retry loop *)

Lemma fetchLoop_attempt w n url resp err st :
  NewRequest_ok w url = true ->
  fetchLoop w (S n) url resp err st =
  let sent := Requested url (drawnAgent w st) referer in
  match client_Do w (requests st) url with
  | DoErr msg =>
      fetchLoop w n url None (Some (ErrTransport msg))
        (advance st [sent; Logged (MsgErrorFetchingRetry (ErrTransport msg) retryDelay);
                     Slept retryDelay])
  | DoResp rep =>
      if (status rep =? 200)%Z
      then Done (Some (mkResponse rep false), None) (advance st [sent])
      else fetchLoop w n url (Some (mkResponse rep true)) None
             (advance st [sent; Logged (MsgStatusRetry (status rep) retryDelay);
                          Slept retryDelay])
  end.
Proof.
  intro Hok. cbn [fetchLoop]. rewrite Hok. cbn [negb].
  unfold Sleep, getHeaders.
  unfold bind, Intn, Do, ret, emit, advance, drawnAgent.
  cbn [draws requests trace output].
  destruct (client_Do w (requests st) url) as [msg|rep].
  - cbn. now rewrite <- !List.app_assoc.
  - unfold StatusCode. cbn [reply]. destruct (status rep =? 200)%Z; cbn.
    + reflexivity.
    + now rewrite <- !List.app_assoc.
Qed.

Lemma fetchLoop_bad_url w n url resp err st :
  NewRequest_ok w url = false ->
  fetchLoop w (S n) url resp err st =
  fetchLoop w n url resp err
    (mkState (draws st) (requests st)
       (trace st ++ [Logged (MsgErrorCreatingRequest (ErrNewRequest url))])%list
       (output st)).
Proof. intro Hok. cbn [fetchLoop]. rewrite Hok. reflexivity. Qed.

(** ** [scrapeProfileDetails], case by case *)

Lemma scrapeProfileDetails_eq w url st :
  scrapeProfileDetails w url st =
  let st1 := paused w st in
  if negb (NewRequest_ok w url) then
    Done (bareCandidate url, Some (ErrCreateRequest (ErrNewRequest url))) st1
  else
    let sent := Requested url (drawnAgent w st1) referer in
    match client_Do w (requests st) url with
    | DoErr msg =>
        Done (bareCandidate url, Some (ErrFetchProfile (ErrTransport msg)))
             (advance st1 [sent])
    | DoResp rep =>
        if (status rep =? 200)%Z then
          match fault rep with
          | Some msg =>
              Done (bareCandidate url,
                    Some (ErrParseProfileHTML (ErrTransport msg)))
                   (advance st1 [sent])
          | None =>
              let doc := parse_html w (content rep) in
              Done (mkCandidate (strings.TrimSpace (Text (topCardTitle doc)))
                                (extractRegex (rendered doc) emailRegex)
                                (extractRegex (rendered doc) phoneRegex) url 0,
                    None)
                   (advance st1 [sent])
          end
        else if (status rep =? 429)%Z || (status rep =? 302)%Z then
          Done (bareCandidate url, Some ErrBlocked)
               (advance st1 [sent; Logged MsgCaptchaStopping])
        else
          Done (bareCandidate url, Some (ErrProfileStatus (status rep)))
               (advance st1 [sent])
    end.
Proof.
  unfold scrapeProfileDetails, Sleep, getHeaders.
  unfold bind, Intn, Do, ret, emit, advance, drawnAgent, paused, bareCandidate,
    NewDocumentFromReader, StatusCode.
  cbn [draws requests trace output reply closed].
  destruct (NewRequest_ok w url);
    cbn [negb draws requests trace output reply closed]; [|reflexivity].
  destruct (client_Do w (requests st) url) as [msg|rep]; [reflexivity|].
  destruct (status rep =? 200)%Z; cbn [negb].
  - destruct (fault rep); reflexivity.
  - destruct ((status rep =? 429)%Z || (status rep =? 302)%Z); [|reflexivity].
    cbn. now rewrite <- !List.app_assoc.
Qed.

End RunFacts.

(** * What a run logs, and what enrichment changes *)

Module DriverFacts.
Import Bytes Regexp BytesFacts Spec ExtractFacts RunFacts.

Ltac produces_step :=
  eapply produces_bind;
  [ first [ apply (produces_emit _ (fun _ => True)); [ first [exact I | reflexivity] | exact I ]
          | apply produces_Intn
          | apply produces_getHeaders
          | apply produces_Do; exact I ]
  | intros ? _ ].

Lemma scrapeProfileDetails_silent w url :
  Produces silent_on_experience (fun res => no_experience_error (snd res))
           (scrapeProfileDetails w url).
Proof.
  unfold scrapeProfileDetails, Sleep.
  do 2 produces_step.
  destruct (negb (NewRequest_ok w url)); [now apply produces_ret|].
  do 2 produces_step.
  match goal with r : DoResult |- _ => destruct r as [msg|rep] end;
    [now apply produces_ret|].
  destruct (negb _).
  - destruct (_ || _); [produces_step|]; now apply produces_ret.
  - unfold NewDocumentFromReader. cbn [closed reply].
    destruct (fault rep); now apply produces_ret.
Qed.

Lemma fetchLoop_silent w url n : forall resp err,
  no_experience_error err ->
  Produces silent_on_experience (fun r => no_experience_error (snd r))
           (fetchLoop w n url resp err).
Proof.
  induction n as [|n IH]; intros resp err Herr; cbn [fetchLoop].
  - now apply produces_ret.
  - destruct (negb (NewRequest_ok w url)).
    + produces_step. now apply IH.
    + do 2 produces_step.
      match goal with r : DoResult |- _ => destruct r as [msg|rep] end.
      * unfold Sleep. do 2 produces_step. now apply IH.
      * destruct (negb _); [|now apply produces_ret].
        unfold Sleep. do 2 produces_step. now apply IH.
Qed.

Lemma enrichLoop_silent w n : forall i candidates,
  Produces silent_on_experience (fun _ => True) (enrichLoop w n i candidates).
Proof.
  induction n as [|n IH]; intros i candidates; cbn [enrichLoop].
  - now apply produces_ret.
  - destruct (nth_error candidates i) as [cand|]; [|now apply produces_ret].
    produces_step.
    eapply produces_bind; [apply scrapeProfileDetails_silent|].
    intros res Hres. cbn beta in Hres.
    eapply produces_bind with (Q := fun _ => True); [|intros; apply IH].
    destruct (snd res) as [e|]; [|now apply produces_ret].
    now apply produces_emit.
Qed.

Lemma NewDocumentFromReader_error w r e :
  NewDocumentFromReader w r = inr e -> about_experience e = false.
Proof.
  unfold NewDocumentFromReader.
  destruct (closed r); [now intros [= <-]|].
  destruct (fault (reply r)); now intros [= <-].
Qed.

(** Nothing a page adds to the log reports a failure to read the years
    of experience. *)
Lemma scrapePage_silent w searchURL page allCandidates :
  Produces silent_on_experience (fun _ => True)
           (scrapePage w searchURL page allCandidates).
Proof.
  unfold scrapePage, Sleep. do 4 produces_step.
  eapply produces_bind; [apply fetchLoop_silent; exact I|].
  intros [resp err] Herr. cbn [snd] in Herr.
  assert (Hfail : forall e, about_experience e = false ->
            Produces silent_on_experience (fun _ : list Candidate => True)
              (emit (Logged (MsgFailedToFetch (page + 1) e)) ;; ret allCandidates)).
  { intros e He.
    eapply produces_bind; [now apply (produces_emit _ (fun _ => True))|].
    intros; now apply produces_ret. }
  destruct resp as [resp|], err as [e|]; try (now apply Hfail).
  - destruct (NewDocumentFromReader w resp) as [doc|e] eqn:E.
    + rewrite scrape_flat_map.
      eapply produces_bind; [apply enrichLoop_silent|].
      intros; now apply produces_ret.
    + apply NewDocumentFromReader_error in E.
      eapply produces_bind; [now apply (produces_emit _ (fun _ => True))|].
      intros; now apply produces_ret.
  - apply produces_panic.
Qed.

(** ** The enrichment loop *)

Lemma scrapeProfileDetails_done w url st :
  exists res st', scrapeProfileDetails w url st = Done res st'.
Proof.
  rewrite scrapeProfileDetails_eq. cbv zeta.
  destruct (negb _); [eauto|].
  destruct (client_Do _ _ _) as [msg|rep]; [eauto|].
  destruct (_ =? 200)%Z; [destruct (fault rep); eauto|].
  destruct (_ || _); eauto.
Qed.

Lemma assign_middle (done todo : list Candidate) c c' :
  assign (List.length done) c' (done ++ c :: todo) = (done ++ c' :: todo)%list.
Proof. induction done as [|d done IH]; simpl; [reflexivity | now rewrite IH]. Qed.

Lemma nth_error_middle (done todo : list Candidate) c :
  nth_error (done ++ c :: todo) (List.length done) = Some c.
Proof. induction done as [|d done IH]; simpl; [reflexivity | exact IH]. Qed.

Lemma enrichLoop_spec w todo : forall done st,
  exists out st',
    enrichLoop w (List.length todo) (List.length done) (done ++ todo) st
    = Done (done ++ out)%list st' /\
    Forall2 (Enriched w) todo out.
Proof.
  induction todo as [|cand todo IH]; intros done st; cbn [enrichLoop List.length].
  - exists [], st. split; [reflexivity | constructor].
  - rewrite nth_error_middle. unfold bind at 1. cbn [emit].
    unfold bind at 1.
    match goal with |- context [scrapeProfileDetails w ?u ?s] =>
      destruct (scrapeProfileDetails_done w u s) as (res & st1 & E); rewrite E
    end.
    rewrite assign_middle.
    assert (Hlog : exists st2,
      (match snd res with
       | Some e => emit (Logged (MsgErrorProfileDetails (ProfileURL cand) e))
       | None => ret tt
       end) st1 = Done tt st2) by (destruct (snd res); unfold emit, ret; eauto).
    destruct Hlog as [st2 Hlog]. unfold bind. rewrite Hlog.
    specialize (IH (done ++ [applyDetails cand res])%list st2).
    rewrite List.length_app, Nat.add_comm, <- List.app_assoc in IH. cbn in IH.
    destruct IH as (out & st' & -> & F).
    exists (applyDetails cand res :: out), st'. rewrite <- List.app_assoc.
    split; [reflexivity|]. constructor; [|exact F].
    eexists _, res, st1. split; [exact E | reflexivity].
Qed.

End DriverFacts.

(** * Facts about the CSV file *)

Module CsvFacts.
Import Bytes Regexp BytesFacts Spec StrconvFacts csvread.

Lemma plain_inv c :
  plain c = true ->
  Ascii.eqb c dquote = false /\ Ascii.eqb c comma = false /\ Ascii.eqb c lf = false.
Proof.
  unfold plain, csv.special. intro H. apply negb_true_iff in H.
  repeat (apply orb_false_iff in H as [H ?]). auto.
Qed.

Lemma unquoted_plain field :
  csv.fieldNeedsQuotes field = false ->
  field = EmptyString \/ forallb plain field = true.
Proof.
  unfold csv.fieldNeedsQuotes.
  destruct (String.eqb field EmptyString) eqn:E0.
  - apply String.eqb_eq in E0. auto.
  - destruct (String.eqb field "\."); [discriminate|].
    intro H. apply orb_false_iff in H as [H _].
    apply negb_false_iff in H. right. exact H.
Qed.

Section Field.
Variables (record : list string) (records : list (list string)).
Variables (d : ascii) (rest : string).
Hypothesis delimiter : d = comma \/ d = lf.

Lemma read_delimiter m field :
  m = Bare \/ m = QuoteSeen ->
  read m field record records (String d rest)
  = after_field d (rev field) record records rest.
Proof.
  unfold after_field.
  intros [-> | ->]; destruct delimiter as [-> | ->]; reflexivity.
Qed.

Lemma read_bare field : forall acc,
  forallb plain field = true ->
  read Bare acc record records (field ++ String d rest)
  = after_field d (rev (rev_onto field acc)) record records rest.
Proof.
  induction field as [|c field IH]; intros acc H.
  - apply read_delimiter. auto.
  - cbn [forallb] in H. apply andb_true_iff in H as [Hc H].
    destruct (plain_inv c Hc) as (Hq & Hcm & Hlf).
    cbn [append read rev_onto]. rewrite Hq, Hcm, Hlf. now apply IH.
Qed.

Lemma read_open s :
  read FieldStart EmptyString record records (String dquote s)
  = read Quoted EmptyString record records s.
Proof. reflexivity. Qed.

Lemma read_close acc s :
  read Quoted acc record records (String dquote s)
  = read QuoteSeen acc record records s.
Proof. reflexivity. Qed.

Lemma read_escaped acc s :
  read QuoteSeen acc record records (String dquote s)
  = read Quoted (String dquote acc) record records s.
Proof. reflexivity. Qed.

Lemma read_inside c acc s :
  Ascii.eqb c dquote = false ->
  read Quoted acc record records (String c s)
  = read Quoted (String c acc) record records s.
Proof. intro H. cbn [read]. now rewrite H. Qed.

Lemma read_quoted field : forall acc,
  read Quoted acc record records
       (csv.quoted field ++ String dquote (String d rest))
  = after_field d (rev (rev_onto field acc)) record records rest.
Proof.
  induction field as [|c field IH]; intro acc.
  - cbn [csv.quoted append rev_onto]. rewrite read_close.
    apply read_delimiter. auto.
  - cbn [csv.quoted rev_onto]. destruct (Ascii.eqb c dquote) eqn:E.
    + apply Ascii.eqb_eq in E. subst c.
      cbn [append]. rewrite read_close, read_escaped. apply IH.
    + cbn [append]. rewrite read_inside by exact E. apply IH.
Qed.

(** A written field followed by a delimiter is read back as the field. *)
Lemma read_field field :
  read FieldStart EmptyString record records
       (csv.writeField field ++ String d rest)
  = after_field d field record records rest.
Proof.
  unfold csv.writeField. destruct (csv.fieldNeedsQuotes field) eqn:E.
  - cbn [append]. rewrite app_assoc. cbn [append]. rewrite read_open.
    rewrite read_quoted. fold (Bytes.rev field). now rewrite rev_involutive.
  - assert (H : forallb plain field = true)
      by (destruct (unquoted_plain _ E) as [-> | H]; [reflexivity | exact H]).
    destruct field as [|c field].
    + unfold after_field. destruct delimiter as [-> | ->]; reflexivity.
    + cbn [forallb] in H. apply andb_true_iff in H as [Hc H].
      destruct (plain_inv c Hc) as (Hq & Hcm & Hlf).
      cbn [append read]. rewrite Hq, Hcm, Hlf.
      rewrite read_bare by exact H.
      change (rev_onto field (String c EmptyString))
        with (rev_onto (String c field) EmptyString).
      fold (Bytes.rev (String c field)). now rewrite rev_involutive.
Qed.
End Field.

Lemma writeFields_tail n field fields :
  csv.writeFields (S n) (field :: fields)
  = String comma (csv.writeField field ++ csv.writeFields (S (S n)) fields).
Proof. reflexivity. Qed.

Lemma read_fields fields : forall n field record records rest,
  read FieldStart EmptyString record records
       (csv.writeField field ++ csv.writeFields (S n) fields ++ String lf rest)
  = read FieldStart EmptyString []
         (List.rev (List.rev fields ++ field :: record) :: records) rest.
Proof.
  induction fields as [|g fields IH]; intros n field record records rest.
  - cbn [csv.writeFields append List.rev List.app].
    rewrite read_field by auto. reflexivity.
  - rewrite writeFields_tail. cbn [append].
    rewrite read_field by auto. unfold after_field.
    change (Ascii.eqb comma comma) with true. cbv iota.
    rewrite app_assoc, IH. cbn [List.rev]. now rewrite <- List.app_assoc.
Qed.

(** One written record is read back as that record. *)
Lemma read_record field fields records rest :
  read FieldStart EmptyString [] records (csv.Write (field :: fields) ++ rest)
  = read FieldStart EmptyString [] ((field :: fields) :: records) rest.
Proof.
  unfold csv.Write. cbn [csv.writeFields Nat.ltb Nat.leb append].
  rewrite !app_assoc. cbn [append]. rewrite read_fields.
  now rewrite List.rev_app_distr, List.rev_involutive.
Qed.

Lemma read_lines rs : forall records,
  Forall (fun r => r <> []) rs ->
  read FieldStart EmptyString [] records (lines rs)
  = Some (List.rev records ++ rs)%list.
Proof.
  induction rs as [|r rs IH]; intros records H; cbn [lines].
  - cbn. now rewrite List.app_nil_r.
  - inversion H as [|? ? Hr Hrs]; subst.
    destruct r as [|field fields]; [congruence|].
    rewrite read_record, IH by exact Hrs. cbn [List.rev].
    now rewrite <- List.app_assoc.
Qed.

Lemma ReadAll_lines rs :
  Forall (fun r => r <> []) rs -> ReadAll (lines rs) = Some rs.
Proof. intro H. unfold ReadAll. now rewrite read_lines. Qed.

Lemma Write_header : csv.Write header = headerLine.
Proof. reflexivity. Qed.

Lemma toCandidate_row c :
  fits_int (Experience c) -> toCandidate (row c) = Some c.
Proof.
  intro H. unfold toCandidate, row. rewrite (Atoi_Itoa _ H). now destruct c.
Qed.

(** ** What [writeToCSV] leaves in the file *)

Lemma writeRows_ok w filename candidates : forall k st bytes,
  (forall k, Write_ok w k = true) ->
  output st = Some (filename, bytes) ->
  writeRows w k filename candidates st
  = Done None (mkState (draws st) (requests st) (trace st)
                       (Some (filename, bytes ++ lines (map row candidates)))).
Proof.
  induction candidates as [|c candidates IH]; intros k st bytes Hw Hout;
    cbn [writeRows map lines].
  - rewrite app_nil_r. unfold ret. rewrite <- Hout. now destruct st.
  - unfold bind, csvWrite. rewrite Hw, Hout.
    erewrite IH; [|exact Hw|reflexivity]. cbn [draws requests trace output].
    now rewrite app_assoc.
Qed.

Lemma writeToCSV_ok w candidates filename st :
  Create_ok w filename = true ->
  (forall k, Write_ok w k = true) ->
  writeToCSV w candidates filename st
  = Done None (mkState (draws st) (requests st) (trace st)
                       (Some (filename, lines (header :: map row candidates)))).
Proof.
  intros Hc Hw. unfold writeToCSV. rewrite Hc. cbn [negb].
  unfold bind at 1. unfold bind at 1. unfold csvWrite at 1. rewrite Hw.
  cbn [output draws requests trace].
  erewrite writeRows_ok; [|exact Hw|reflexivity]. reflexivity.
Qed.

End CsvFacts.

(** * Properties of the specification *)

Import Bytes Regexp BytesFacts RegexpFacts PatternFacts StrconvFacts Spec.
Import ExtractFacts RunFacts DriverFacts CsvFacts.

(** ** Fetching *)

(** Profile fetches do stop at a blocked status: one request, the
    blocked error, no retry. *)
Lemma profile_fetch_blocked w url st rep :
  NewRequest_ok w url = true ->
  client_Do w (requests st) url = DoResp rep ->
  status rep = 429%Z \/ status rep = 302%Z ->
  exists st',
    scrapeProfileDetails w url st = Done (bareCandidate url, Some ErrBlocked) st' /\
    requests st' = S (requests st) /\
    requested (trace st') = (requested (trace st) ++ [url])%list.
Proof.
  intros Hok Hdo Hst. rewrite scrapeProfileDetails_eq. cbv zeta.
  rewrite Hok, Hdo. cbn [negb].
  assert (E : (status rep =? 200)%Z = false) by (destruct Hst as [-> | ->]; reflexivity).
  assert (B : (status rep =? 429)%Z || (status rep =? 302)%Z = true)
    by (destruct Hst as [-> | ->]; reflexivity).
  rewrite E, B. eexists. split; [reflexivity|]. split; [reflexivity|].
  unfold requested, advance, paused. cbn [trace].
  rewrite !flat_map_app. cbn. now rewrite List.app_nil_r.
Qed.

(** C1 (code defect): a page fetch answered 429 is retried like any
    other status that is not 200: three requests, three retry delays,
    and no error left in [err], where the claim has the fetch return a
    blocked error on the first attempt. *)
Theorem C1_page_fetch_retries_blocked_status :
  let w := Fixtures.world [Fixtures.answers 429; Fixtures.answers 429;
                           Fixtures.answers 429] Fixtures.noDocument in
  exists st',
    fetchLoop w retryAttempts Fixtures.pageURL None None initial
    = Done (Some (mkResponse (mkReply 429 EmptyString None) true), None) st' /\
    requested (trace st') = [Fixtures.pageURL; Fixtures.pageURL; Fixtures.pageURL] /\
    sleeps (trace st') = [retryDelay; retryDelay; retryDelay] /\
    logged (trace st') = [MsgStatusRetry 429 retryDelay; MsgStatusRetry 429 retryDelay;
                          MsgStatusRetry 429 retryDelay].
Proof. cbv zeta. eexists. split; [vm_compute; reflexivity|]. repeat split. Qed.

(** In every world, a page fetch answered 429 or 302 with attempts left
    goes on to the next attempt after the retry delay. *)
Lemma page_fetch_goes_on_after_blocked_status w n url resp err st rep :
  NewRequest_ok w url = true ->
  client_Do w (requests st) url = DoResp rep ->
  status rep = 429%Z \/ status rep = 302%Z ->
  fetchLoop w (S n) url resp err st
  = fetchLoop w n url (Some (mkResponse rep true)) None
      (advance st [Requested url (drawnAgent w st) referer;
                   Logged (MsgStatusRetry (status rep) retryDelay);
                   Slept retryDelay]).
Proof.
  intros Hok Hdo Hst. rewrite fetchLoop_attempt by exact Hok. cbv zeta.
  rewrite Hdo. now destruct Hst as [-> | ->].
Qed.

(** A 429 followed by a 200: the page fetch succeeds on the second
    attempt. *)
Lemma page_fetch_succeeds_after_429 :
  let w := Fixtures.world [Fixtures.answers 429;
                           DoResp (mkReply 200 "<html></html>" None)]
                          Fixtures.noDocument in
  exists st',
    fetchLoop w retryAttempts Fixtures.pageURL None None initial
    = Done (Some (mkResponse (mkReply 200 "<html></html>" None) false), None) st' /\
    requested (trace st') = [Fixtures.pageURL; Fixtures.pageURL].
Proof. cbv zeta. eexists. split; [vm_compute; reflexivity | reflexivity]. Qed.

(** When every attempt of a page fetch is answered with a status other
    than 200, the loop ends with no error, and the page is given up only
    because its closed body cannot be read. *)
Lemma scrapePage_statuses_only w searchURL page allCandidates st r1 r2 r3 :
  let url := pageURL_of searchURL page in
  let k := requests st in
  NewRequest_ok w url = true ->
  client_Do w k url = DoResp r1 -> status r1 <> 200%Z ->
  client_Do w (S k) url = DoResp r2 -> status r2 <> 200%Z ->
  client_Do w (S (S k)) url = DoResp r3 -> status r3 <> 200%Z ->
  exists st' new,
    scrapePage w searchURL page allCandidates st = Done allCandidates st' /\
    trace st' = (trace st ++ new)%list /\
    logged new = [MsgStatusRetry (status r1) retryDelay;
                  MsgStatusRetry (status r2) retryDelay;
                  MsgStatusRetry (status r3) retryDelay;
                  MsgErrorParsingPage (page + 1) ErrReadClosedBody].
Proof.
  intros url k Hok H1 S1 H2 S2 H3 S3.
  apply Z.eqb_neq in S1, S2, S3.
  unfold scrapePage. fold url.
  unfold bind at 1. cbn [emit]. unfold bind at 1. cbn [Intn].
  unfold bind at 1. cbn [emit]. unfold bind at 1. unfold Sleep at 1. cbn [emit].
  unfold bind at 1. cbn [draws requests trace output].
  unfold retryAttempts.
  rewrite fetchLoop_attempt by exact Hok. cbv zeta.
  cbn [draws requests trace output advance]. fold k. rewrite H1, S1.
  rewrite fetchLoop_attempt by exact Hok. cbv zeta.
  cbn [draws requests trace output advance]. rewrite H2, S2.
  rewrite fetchLoop_attempt by exact Hok. cbv zeta.
  cbn [draws requests trace output advance]. rewrite H3, S3.
  cbn [fetchLoop ret NewDocumentFromReader closed]. unfold bind. cbn [emit ret].
  eexists _, _. split; [reflexivity|]. unfold advance. cbn [trace]. split.
  - rewrite <- !List.app_assoc. reflexivity.
  - reflexivity.
Qed.

(** C2 (code defect): three attempts answered 503 leave [err] nil, so the
    check after the loop does not report a failed fetch; the driver goes
    on to parse the closed body and skips the page only when that
    fails.  The run itself does continue with the next page. *)
Theorem C2_status_failures_reach_the_parser :
  let w := Fixtures.unavailable in
  (exists st',
     fetchLoop w retryAttempts Fixtures.pageURL None None initial
     = Done (Some (mkResponse (mkReply 503 EmptyString None) true), None) st') /\
  (exists st',
     scrapePage w Fixtures.pageURL 0 [] initial = Done [] st' /\
     logged (trace st') = [MsgStatusRetry 503 retryDelay; MsgStatusRetry 503 retryDelay;
                           MsgStatusRetry 503 retryDelay;
                           MsgErrorParsingPage 1 ErrReadClosedBody]) /\
  (exists st',
     main w initial = Done 0%Z st' /\
     logged (trace st') = [MsgStatusRetry 503 retryDelay; MsgStatusRetry 503 retryDelay;
                           MsgStatusRetry 503 retryDelay;
                           MsgErrorParsingPage 1 ErrReadClosedBody;
                           MsgStatusRetry 503 retryDelay; MsgStatusRetry 503 retryDelay;
                           MsgStatusRetry 503 retryDelay;
                           MsgErrorParsingPage 2 ErrReadClosedBody;
                           MsgNoCandidates]).
Proof.
  cbv zeta. split; [|split]; eexists.
  - vm_compute; reflexivity.
  - split; [vm_compute; reflexivity | reflexivity].
  - split; [vm_compute; reflexivity | reflexivity].
Qed.

(** A last attempt that fails in transport does leave the error, and the
    page is skipped before any parsing. *)
Lemma scrapePage_transport_failure :
  let w := Fixtures.world [Fixtures.answers 503; Fixtures.answers 503] Fixtures.noDocument in
  exists st',
    scrapePage w Fixtures.pageURL 0 [] initial = Done [] st' /\
    logged (trace st')
    = [MsgStatusRetry 503 retryDelay; MsgStatusRetry 503 retryDelay;
       MsgErrorFetchingRetry (ErrTransport "connection refused") retryDelay;
       MsgFailedToFetch 1 (ErrTransport "connection refused")].
Proof. cbv zeta. eexists. split; [vm_compute; reflexivity | reflexivity]. Qed.

(** C5: 503, 503, then 200: the loop returns the third response with its
    body unread and open, after three requests and exactly two sleeps of
    the fixed retry delay. *)
Theorem C5_success_on_third_attempt w url st r1 r2 r3 :
  NewRequest_ok w url = true ->
  client_Do w (requests st) url = DoResp r1 -> status r1 = 503%Z ->
  client_Do w (S (requests st)) url = DoResp r2 -> status r2 = 503%Z ->
  client_Do w (S (S (requests st))) url = DoResp r3 -> status r3 = 200%Z ->
  exists st' new,
    fetchLoop w retryAttempts url None None st
    = Done (Some (mkResponse r3 false), None) st' /\
    trace st' = (trace st ++ new)%list /\
    requested new = [url; url; url] /\
    sleeps new = [retryDelay; retryDelay] /\
    retryDelay = 5000000000%Z /\
    (fault r3 = None ->
     NewDocumentFromReader w (mkResponse r3 false) = inl (parse_html w (content r3))).
Proof.
  intros Hok H1 S1 H2 S2 H3 S3. unfold retryAttempts.
  rewrite fetchLoop_attempt by exact Hok. cbv zeta. rewrite H1, S1. cbn [Z.eqb Pos.eqb].
  rewrite fetchLoop_attempt by exact Hok. cbv zeta.
  cbn [draws requests trace output advance]. rewrite H2, S2. cbn [Z.eqb Pos.eqb].
  rewrite fetchLoop_attempt by exact Hok. cbv zeta.
  cbn [draws requests trace output advance]. rewrite H3, S3. cbn [Z.eqb Pos.eqb].
  eexists _, _. split; [reflexivity|]. unfold advance. cbn [trace]. split.
  - rewrite <- !List.app_assoc. reflexivity.
  - repeat split. unfold NewDocumentFromReader. cbn [closed reply]. now intros ->.
Qed.

Lemma C5_witness :
  let w := Fixtures.world [Fixtures.answers 503; Fixtures.answers 503;
                           DoResp (mkReply 200 "<html></html>" None)] Fixtures.noDocument in
  exists st' new,
    fetchLoop w retryAttempts Fixtures.pageURL None None initial
    = Done (Some (mkResponse (mkReply 200 "<html></html>" None) false), None) st' /\
    trace st' = (trace initial ++ new)%list /\
    requested new = [Fixtures.pageURL; Fixtures.pageURL; Fixtures.pageURL] /\
    sleeps new = [retryDelay; retryDelay] /\
    retryDelay = 5000000000%Z /\
    (fault (mkReply 200 "<html></html>" None) = None ->
     NewDocumentFromReader w (mkResponse (mkReply 200 "<html></html>" None) false)
     = inl (parse_html w (content (mkReply 200 "<html></html>" None)))).
Proof.
  cbv zeta.
  apply (C5_success_on_third_attempt _ Fixtures.pageURL initial
           (mkReply 503 EmptyString None) (mkReply 503 EmptyString None));
    reflexivity.
Defined.

(** ** Extraction *)

Lemma leftmost_here {A} (f : string -> option A) s a :
  f s = Some a -> leftmost f s = Some a.
Proof. intro H. destruct s; cbn [leftmost]; now rewrite H. Qed.

Lemma hasLink_found s link :
  Attr_href (findProfileLinks s) = Some link -> hasLink s = true.
Proof. unfold hasLink, Attr_href. now destruct (findProfileLinks s). Qed.

Lemma WellFormed_hasLink s : WellFormed s -> hasLink s = true.
Proof. intros (link & u & H & _). now apply (hasLink_found s link). Qed.

Lemma MissingLink_hasLink s : MissingLink s -> hasLink s = false.
Proof. unfold MissingLink, hasLink. now intros ->. Qed.

Lemma missing_name s cand :
  scrapeContainer s = Some cand -> nameNodes s = [] -> Name cand = EmptyString.
Proof.
  rewrite scrapeContainer_spec. destruct (found_link s); [|discriminate].
  intros [= <-] Hn. cbn [Name]. rewrite Hn. reflexivity.
Qed.

(** C3: in a document whose containers are well formed or lack the
    profile link, the extractor skips the latter without an error and
    emits one record for each of the former, in document order; a
    container without a name node still yields its record, with an empty
    name. *)
Theorem C3_one_record_per_well_formed_container (doc : Document) :
  Forall (fun s => WellFormed s \/ MissingLink s) (results doc) ->
  let good := filter hasLink (results doc) in
  let bad := filter (fun s => negb (hasLink s)) (results doc) in
  let records := fst (scrapeGoogleSearchResults doc) in
  Forall WellFormed good /\ Forall MissingLink bad /\
  List.length records = List.length good /\
  Forall2 (fun s cand => scrapeContainer s = Some cand /\
                         (nameNodes s = [] -> Name cand = EmptyString))
          good records /\
  snd (scrapeGoogleSearchResults doc) = None.
Proof.
  rewrite scrape_flat_map. cbn [fst snd]. cbv zeta.
  induction (results doc) as [|s l IH]; intro H.
  - cbn. repeat split; constructor.
  - inversion H as [|? ? Hs Hl]; subst.
    destruct (IH Hl) as (Hg & Hb & Hlen & Hrec & _). cbn [filter flat_map].
    destruct Hs as [Hwf | Hmiss].
    + rewrite (WellFormed_hasLink _ Hwf). cbn [negb].
      destruct (proj1 (WellFormed_emits s) Hwf) as [cand Hc].
      unfold emitted at 1 3. rewrite Hc. cbn [List.app List.length].
      repeat split; auto.
      constructor; [|exact Hrec]. split; [exact Hc|]. now apply missing_name.
    + rewrite (MissingLink_hasLink _ Hmiss). cbn [negb].
      unfold emitted at 1 3. rewrite (MissingLink_skipped _ Hmiss). cbn [List.app].
      repeat split; auto.
Qed.

Lemma redirected_WellFormed : WellFormed Fixtures.redirected.
Proof.
  apply WellFormed_emits. vm_compute. eauto.
Qed.

Lemma C3_witness :
  let doc := mkDocument [Fixtures.linkless; Fixtures.redirected; Fixtures.linkless;
                         mkContainer [Some "https://www.linkedin.com/in/jane?trk=1"] [] []]
                        [] EmptyString in
  Forall (fun s => WellFormed s \/ MissingLink s) (results doc) /\
  List.length (fst (scrapeGoogleSearchResults doc)) = 2 /\
  map ProfileURL (fst (scrapeGoogleSearchResults doc))
  = ["https://www.linkedin.com/in/foo"; "https://www.linkedin.com/in/jane"] /\
  map Name (fst (scrapeGoogleSearchResults doc)) = [EmptyString; EmptyString].
Proof.
  intro doc.
  assert (Hdoc : Forall (fun s => WellFormed s \/ MissingLink s) (results doc)).
  { apply Forall_cons; [right; reflexivity|].
    apply Forall_cons; [left; exact redirected_WellFormed|].
    apply Forall_cons; [right; reflexivity|].
    apply Forall_cons; [left; apply WellFormed_emits; vm_compute; eauto|].
    apply Forall_nil. }
  split; [exact Hdoc|].
  destruct (C3_one_record_per_well_formed_container doc Hdoc) as (_ & _ & Hlen & _).
  split; [exact Hlen|]. split; reflexivity.
Defined.

(** C7 as stated fails: a link that reaches the profile through the
    search engine's redirect starts with other text and has a delimiter
    before the profile address; the stored link is the profile address,
    not the link cut at its first delimiter. *)
Lemma C7_counterexample :
  let link := "/url?q=https://www.linkedin.com/in/foo&sa=U" in
  Attr_href (findProfileLinks Fixtures.redirected) = Some link /\
  option_map ProfileURL (scrapeContainer Fixtures.redirected)
  = Some "https://www.linkedin.com/in/foo" /\
  prefix_to_delim link = "/url" /\
  ~ (forall s l cand,
       Attr_href (findProfileLinks s) = Some l ->
       scrapeContainer s = Some cand ->
       ProfileURL cand = prefix_to_delim l).
Proof.
  cbv zeta. repeat split. intro H.
  specialize (H Fixtures.redirected _ _ eq_refl eq_refl). discriminate H.
Qed.

(** C7 (amended): the stored link is the text the canonical pattern
    captures at its leftmost occurrence in the link: the profile prefix
    followed by the longest non-empty run of bytes other than the two
    delimiters.  When the link itself starts with the pattern, that is
    the link up to its first delimiter.  A link in which the pattern
    occurs nowhere gives no record. *)
Theorem C7_stored_link_is_leftmost_canonical (s : Container) (link : string) :
  Attr_href (findProfileLinks s) = Some link ->
  (forall cand, scrapeContainer s = Some cand ->
                Leftmost CanonicalAt link (ProfileURL cand)) /\
  (forall u, CanonicalAt link u ->
             exists cand, scrapeContainer s = Some cand /\
                          ProfileURL cand = u /\ u = prefix_to_delim link) /\
  (Nowhere CanonicalAt link <-> scrapeContainer s = None).
Proof.
  intro Hl. rewrite scrapeContainer_spec. unfold found_link. rewrite Hl.
  split; [|split].
  - intros cand H. destruct (leftmost canonical_at link) as [u|] eqn:E; [|discriminate].
    injection H as <-. cbn [ProfileURL].
    now apply (leftmost_sound _ _ canonical_at_spec).
  - intros u Hu.
    rewrite (leftmost_here canonical_at link u) by now apply canonical_at_spec.
    eexists. split; [reflexivity|]. split; [reflexivity|].
    now apply CanonicalAt_start_prefix.
  - rewrite <- (leftmost_none _ _ canonical_at_spec).
    destruct (leftmost canonical_at link); split; congruence.
Qed.

Lemma C7_witness :
  Attr_href (findProfileLinks Fixtures.redirected)
  = Some "/url?q=https://www.linkedin.com/in/foo&sa=U" /\
  Leftmost CanonicalAt "/url?q=https://www.linkedin.com/in/foo&sa=U"
           "https://www.linkedin.com/in/foo".
Proof.
  split; [reflexivity|].
  exact (proj1 (C7_stored_link_is_leftmost_canonical Fixtures.redirected _ eq_refl)
               (mkCandidate EmptyString EmptyString EmptyString
                            "https://www.linkedin.com/in/foo" 0)
               eq_refl).
Defined.

(** C9: every record the extractor emits has a profile link that starts
    with the profile prefix and holds neither delimiter, and a number of
    years that is not negative. *)
Theorem C9_emitted_record_invariant (doc : Document) (cand : Candidate) :
  In cand (fst (scrapeGoogleSearchResults doc)) ->
  has_prefix "https://www.linkedin.com/in/" (ProfileURL cand) = true /\
  forallb (fun c => negb (Ascii.eqb c "&") && negb (Ascii.eqb c "?"))
          (ProfileURL cand) = true /\
  (0 <= Experience cand)%Z.
Proof.
  intro H. apply In_scrape in H as (s & _ & Hs).
  rewrite scrapeContainer_spec in Hs.
  destruct (found_link s) as [u|] eqn:E; [|discriminate].
  injection Hs as <-. cbn [ProfileURL Experience].
  apply found_link_WellFormed in E as (link & _ & (_ & t & _ & Hu & _)).
  apply CanonicalAt_shape in Hu as [Hp Hd].
  split; [exact Hp|]. split.
  - transitivity (forallb nondelim u); [|exact Hd].
    apply forallb_ext. intro c. symmetry. apply nondelim_chars.
  - apply parseExperience_range.
Qed.

Lemma C9_witness :
  In (Fixtures.jane 5) (fst (scrapeGoogleSearchResults (Fixtures.page "5 years"))) /\
  has_prefix "https://www.linkedin.com/in/" (ProfileURL (Fixtures.jane 5)) = true /\
  forallb (fun c => negb (Ascii.eqb c "&") && negb (Ascii.eqb c "?"))
          (ProfileURL (Fixtures.jane 5)) = true /\
  (0 <= Experience (Fixtures.jane 5))%Z.
Proof.
  assert (H : In (Fixtures.jane 5)
                 (fst (scrapeGoogleSearchResults (Fixtures.page "5 years"))))
    by (left; reflexivity).
  split; [exact H|].
  exact (C9_emitted_record_invariant (Fixtures.page "5 years") (Fixtures.jane 5) H).
Defined.

(** C4 as stated fails: on a page whose one result has the snippet
    [five years], the extractor gets an error from [parseExperience],
    sets the years to zero and emits the record, and the run of that page
    logs nothing at all. *)
Lemma C4_counterexample :
  let w := Fixtures.world [DoResp (mkReply 200 "<html>page</html>" None);
                           DoResp (mkReply 200 "<html>profile</html>" None)]
                          (Fixtures.page "five years") in
  let r := scrapePage w Fixtures.pageURL 0 [] initial in
  parseExperience "five years" = (0%Z, Some (ErrExperienceNotFound "five years")) /\
  option_map (map Experience) (value_of r) = Some [0%Z] /\
  logged (trace (state_of r)) = [] /\
  ~ (exists m, In m (logged (trace (state_of r)))).
Proof.
  cbv zeta.
  assert (L : logged (trace (state_of
                (scrapePage
                   (Fixtures.world [DoResp (mkReply 200 "<html>page</html>" None);
                                    DoResp (mkReply 200 "<html>profile</html>" None)]
                                   (Fixtures.page "five years"))
                   Fixtures.pageURL 0 [] initial))) = []) by (vm_compute; reflexivity).
  split; [vm_compute; reflexivity|]. split; [vm_compute; reflexivity|].
  split; [exact L|]. rewrite L. intros [m []].
Qed.

(** C4 (amended): the years of an emitted record are the number written
    by the digits of the leftmost match of the pattern when that number
    fits an [int], and zero when it does not or when the snippet has no
    match.  [parseExperience] returns the failure as an error value, the
    extractor drops it: the record is emitted whatever the snippet holds,
    the extractor itself never reports an error, and no message a page
    logs or prints carries such an error. *)
Theorem C4_years_from_leftmost_match (s : Container) (cand : Candidate) :
  scrapeContainer s = Some cand ->
  let snippet := Text (snippetNodes s) in
  (forall ds, Leftmost YearsAt snippet ds ->
     Experience cand
     = if (decimal ds 0 <=? strconv.maxInt)%Z then decimal ds 0 else 0%Z) /\
  (Nowhere YearsAt snippet ->
     Experience cand = 0%Z /\
     parseExperience snippet = (0%Z, Some (ErrExperienceNotFound snippet))) /\
  (forall nodes, exists cand',
     scrapeContainer (mkContainer (anchors s) (nameNodes s) nodes) = Some cand') /\
  (forall doc, snd (scrapeGoogleSearchResults doc) = None) /\
  (forall w searchURL page allCandidates,
     Produces silent_on_experience (fun _ => True)
              (scrapePage w searchURL page allCandidates)).
Proof.
  intros H snippet. rewrite scrapeContainer_spec in H.
  destruct (found_link s) as [u|] eqn:E; [|discriminate].
  injection H as <-. cbn [Experience]. fold snippet.
  rewrite parseExperience_spec.
  split; [|split; [|split; [|split]]].
  - intros ds Hds. apply (leftmost_complete _ _ years_at_spec) in Hds.
    rewrite Hds. now destruct (decimal ds 0 <=? strconv.maxInt)%Z.
  - intro Hno. apply (leftmost_none _ _ years_at_spec) in Hno.
    rewrite Hno. split; reflexivity.
  - intro nodes. rewrite scrapeContainer_spec.
    change (found_link (mkContainer (anchors s) (nameNodes s) nodes))
      with (found_link s).
    rewrite E. eauto.
  - intro doc. now rewrite scrape_flat_map.
  - intros. apply scrapePage_silent.
Qed.

Lemma five_years_leftmost : Leftmost YearsAt "5 years" "5".
Proof. now apply (leftmost_sound years_at YearsAt years_at_spec). Defined.

Lemma C4_witness :
  scrapeContainer (Fixtures.direct "5 years") = Some (Fixtures.jane 5) /\
  Experience (Fixtures.jane 5) = 5%Z.
Proof.
  split; [reflexivity|].
  exact (proj1 (C4_years_from_leftmost_match (Fixtures.direct "5 years")
                  (Fixtures.jane 5) eq_refl) "5" five_years_leftmost).
Defined.

(** ** Enrichment *)

(** C6: the enrichment loop returns one record for each record it was
    given, in the same order.  Where [scrapeProfileDetails] answered
    without an error, name, address and phone are the answer's and the
    profile link and the years are those of the page; where it answered
    with an error, the record is unchanged. *)
Theorem C6_enrichment_overwrites_three_fields
        (w : World) (candidates : list Candidate) (st : State) :
  exists out st',
    enrichLoop w (List.length candidates) 0 candidates st = Done out st' /\
    Forall2
      (fun cand cand' =>
         exists sti detailed err sti',
           scrapeProfileDetails w (ProfileURL cand) sti = Done (detailed, err) sti' /\
           match err with
           | None =>
               cand' = mkCandidate (Name detailed) (Email detailed) (Phone detailed)
                                   (ProfileURL cand) (Experience cand)
           | Some _ => cand' = cand
           end)
      candidates out.
Proof.
  destruct (enrichLoop_spec w candidates [] st) as (out & st' & E & F).
  cbn [List.length List.app] in E.
  exists out, st'. split; [exact E|]. clear E.
  induction F as [|cand cand' l l' HR _ IH]; [constructor|].
  constructor; [|exact IH].
  destruct HR as (sti & [detailed err] & sti' & Hrun & ->).
  exists sti, detailed, err, sti'. split; [exact Hrun|].
  now destruct err.
Qed.

(** C10: whenever [scrapeProfileDetails] returns an error, on any of its
    five error paths, the candidate it returns holds the link it was
    given and nothing else. *)
Theorem C10_error_leaves_only_the_link
        (w : World) (profileURL : string) (st st' : State)
        (candidate : Candidate) (err : error) :
  scrapeProfileDetails w profileURL st = Done (candidate, Some err) st' ->
  candidate = mkCandidate EmptyString EmptyString EmptyString profileURL 0 /\
  (err = ErrCreateRequest (ErrNewRequest profileURL) \/
   (exists msg, err = ErrFetchProfile (ErrTransport msg)) \/
   err = ErrBlocked \/
   (exists code, err = ErrProfileStatus code /\ code <> 200%Z) \/
   (exists msg, err = ErrParseProfileHTML (ErrTransport msg))).
Proof.
  rewrite scrapeProfileDetails_eq. cbv zeta.
  destruct (negb _).
  { intros [= <- <- _]. split; [reflexivity | auto]. }
  destruct (client_Do _ _ _) as [msg|rep].
  { intros [= <- <- _]. split; [reflexivity | eauto]. }
  destruct (_ =? 200)%Z eqn:E.
  - destruct (fault rep) as [msg|]; [|discriminate].
    intros [= <- <- _]. split; [reflexivity|]. do 4 right. eauto.
  - destruct (_ || _); intros [= <- <- _]; (split; [reflexivity|]); [auto|].
    do 3 right. left. exists (status rep). split; [reflexivity|].
    now apply Z.eqb_neq.
Qed.

Lemma C10_witness :
  let w := Fixtures.world [Fixtures.answers 404] Fixtures.noDocument in
  let url := "https://www.linkedin.com/in/jane" in
  (exists st', scrapeProfileDetails w url initial
               = Done (bareCandidate url, Some (ErrProfileStatus 404)) st') /\
  bareCandidate url = mkCandidate EmptyString EmptyString EmptyString url 0.
Proof.
  cbv zeta. split; [eexists; vm_compute; reflexivity|].
  exact (proj1 (C10_error_leaves_only_the_link
                  (Fixtures.world [Fixtures.answers 404] Fixtures.noDocument)
                  "https://www.linkedin.com/in/jane" initial _ _ (ErrProfileStatus 404)
                  eq_refl)).
Defined.

(** ** The CSV file *)

(** C8: when the file can be created and written, [writeToCSV] leaves in
    it the header line followed by one line per record, in order, the
    years in decimal; reading the file back gives the header row and, for
    each record, a row with the same five fields, from which the record
    itself is recovered. *)
Theorem C8_csv_round_trip
        (w : World) (candidates : list Candidate) (filename : string) (st : State) :
  Create_ok w filename = true ->
  (forall k, Write_ok w k = true) ->
  Forall (fun c => fits_int (Experience c)) candidates ->
  exists st' bytes,
    writeToCSV w candidates filename st = Done None st' /\
    output st' = Some (filename, bytes) /\
    bytes = headerLine ++ lines (map row candidates) /\
    csvread.ReadAll bytes = Some (header :: map row candidates) /\
    List.length (map row candidates) = List.length candidates /\
    map csvread.toCandidate (map row candidates) = map Some candidates.
Proof.
  intros Hc Hw Hfit. rewrite (writeToCSV_ok _ _ _ _ Hc Hw).
  eexists _, _. split; [reflexivity|]. split; [reflexivity|].
  split; [reflexivity|]. split; [|split].
  - apply ReadAll_lines. constructor; [discriminate|].
    clear. induction candidates; constructor; [discriminate | assumption].
  - apply List.length_map.
  - induction Hfit as [|c l Hc' _ IH]; cbn [map]; [reflexivity|].
    now rewrite toCandidate_row, IH.
Qed.

Lemma C8_witness :
  let w := Fixtures.world [] Fixtures.noDocument in
  let candidates := [Fixtures.roe; Fixtures.jane 0] in
  exists st' bytes,
    writeToCSV w candidates outputFilename initial = Done None st' /\
    output st' = Some (outputFilename, bytes) /\
    bytes = headerLine ++ lines (map row candidates) /\
    csvread.ReadAll bytes = Some (header :: map row candidates) /\
    List.length (map row candidates) = List.length candidates /\
    map csvread.toCandidate (map row candidates) = map Some candidates.
Proof.
  cbv zeta.
  apply (C8_csv_round_trip (Fixtures.world [] Fixtures.noDocument)
           [Fixtures.roe; Fixtures.jane 0] outputFilename initial).
  - reflexivity.
  - reflexivity.
  - repeat constructor; discriminate.
Defined.
